(** * A knowledge-graph web backend: graph browsing and question answering

    Shallow embedding of [src/main.py]: a FastAPI application that reads a
    Neo4j graph store and delegates query generation and answer synthesis
    to an external chat-completion service.

    Python values are embedded as an inductive type, Python [str] as a
    sequence of Unicode code points, exceptions as a sum type, and the two
    external collaborators (the HTTP client and the store session) as
    state-passing oracles over an abstract world.  Every external call is
    recorded in a log, so that the order of the calls can be stated. *)

From Stdlib Require QArith.
From Stdlib Require Import String Ascii ZArith NArith Bool Lia List Permutation.
Import ListNotations.

Set Warnings "-register-all".

Local Open Scope list_scope.

(** ** Python strings *)

(** A Python [str] is a sequence of code points. *)
Definition codepoint := N.
Definition str := list codepoint.

(** Source literals are written in UTF-8; [utf8_decode] turns the bytes of
    a literal into its code points.  A truncated sequence at the end of the
    input is dropped (no literal of the program has one). *)
Fixpoint utf8_decode (bs : list N) : str :=
  match bs with
  | [] => []
  | b0 :: r0 =>
      if (b0 <? 128)%N then b0 :: utf8_decode r0
      else
        match r0 with
        | [] => []
        | b1 :: r1 =>
            if (b0 <? 224)%N then
              (N.lor (N.shiftl (N.land b0 31) 6) (N.land b1 63)) :: utf8_decode r1
            else
              match r1 with
              | [] => []
              | b2 :: r2 =>
                  if (b0 <? 240)%N then
                    (N.lor (N.shiftl (N.land b0 15) 12)
                       (N.lor (N.shiftl (N.land b1 63) 6) (N.land b2 63)))
                      :: utf8_decode r2
                  else
                    match r2 with
                    | [] => []
                    | b3 :: r3 =>
                        (N.lor (N.shiftl (N.land b0 7) 18)
                           (N.lor (N.shiftl (N.land b1 63) 12)
                              (N.lor (N.shiftl (N.land b2 63) 6) (N.land b3 63))))
                          :: utf8_decode r3
                    end
              end
        end
  end.

(** [u "text"] is the Python string written ["text"] in the source. *)
Definition u (s : string) : str :=
  utf8_decode (map N_of_ascii (list_ascii_of_string s)).
Arguments u s%_string.

(** The double-quote character, for literals that contain one. *)
Definition dquote : str := [34%N].

Fixpoint str_eqb (a b : str) : bool :=
  match a, b with
  | [], [] => true
  | x :: a', y :: b' => (x =? y)%N && str_eqb a' b'
  | _, _ => false
  end.

(** [starts_with p s]: [s.startswith(p)]. *)
Fixpoint starts_with (p s : str) : bool :=
  match p, s with
  | [], _ => true
  | x :: p', y :: s' => (x =? y)%N && starts_with p' s'
  | _ :: _, [] => false
  end.

(** [contains s p]: [p in s], substring containment. *)
Fixpoint contains (s p : str) : bool :=
  starts_with p s ||
  match s with
  | [] => false
  | _ :: s' => contains s' p
  end.

(** The characters [str.strip()] removes when called without argument:
    those for which [str.isspace] holds (CPython's whitespace table). *)
Definition isspace (c : codepoint) : bool :=
  ((9 <=? c) && (c <=? 13) || (28 <=? c) && (c <=? 32)
   || (c =? 133) || (c =? 160) || (c =? 5760)
   || (8192 <=? c) && (c <=? 8202)
   || (c =? 8232) || (c =? 8233) || (c =? 8239) || (c =? 8287)
   || (c =? 12288))%N.

Fixpoint lstrip (s : str) : str :=
  match s with
  | [] => []
  | c :: s' => if isspace c then lstrip s' else s
  end.

Definition rstrip (s : str) : str := rev (lstrip (rev s)).

(** [s.strip()] *)
Definition strip (s : str) : str := rstrip (lstrip s).

(** [s.replace(old, new)]: occurrences of [old] are replaced from left to
    right without overlap.  [skip] counts the characters of the current
    occurrence that are still to be passed over. *)
Fixpoint replace_from (old new : str) (skip : nat) (s : str) : str :=
  match s with
  | [] => []
  | c :: rest =>
      match skip with
      | S k => replace_from old new k rest
      | O =>
          if starts_with old s
          then new ++ replace_from old new (pred (length old)) rest
          else c :: replace_from old new 0 rest
      end
  end.

Definition replace (old new s : str) : str :=
  match old with
  | [] => new ++ flat_map (fun c => c :: new) s
  | _ :: _ => replace_from old new 0 s
  end.

(** [sep.join(pieces)] *)
Fixpoint join (sep : str) (pieces : list str) : str :=
  match pieces with
  | [] => []
  | [p] => p
  | p :: ps => p ++ sep ++ join sep ps
  end.

(** [s.encode("utf-8")] succeeds unless [s] holds a surrogate code point
    (U+D800 to U+DFFF), which a Python [str] may hold on its own. *)
Definition is_surrogate (c : codepoint) : bool :=
  ((55296 <=? c) && (c <=? 57343))%N.

Definition utf8_encodable (s : str) : bool :=
  forallb (fun c => negb (is_surrogate c)) s.

(** The triple-backtick fence marker. *)
Definition fence : str := u "```".

(** Number of backticks a string starts with. *)
Fixpoint leading_backticks (s : str) : nat :=
  match s with
  | [] => 0
  | c :: t => if (c =? 96)%N then S (leading_backticks t) else 0
  end.

(** ** Python values *)

(** The values that travel through the program: parsed JSON documents and
    the rows of a store result.  A [dict] keeps its items in insertion
    order; lookup takes the first item with the key.  Floating-point
    numbers are not represented: no operation of the program inspects one. *)
Inductive pyval : Type :=
| PNone
| PBool (b : bool)
| PInt (z : Z)
| PStr (s : str)
| PList (l : list pyval)
| PDict (d : list (str * pyval)).

Definition dict := list (str * pyval).

(** The JSON text of a value, written with [ensure_ascii=False], carries
    the strings of the value (keys too) as they are; it can be encoded as
    UTF-8 exactly when each of them can. *)
Fixpoint utf8_encodable_value (v : pyval) : bool :=
  match v with
  | PNone | PBool _ | PInt _ => true
  | PStr s => utf8_encodable s
  | PList l => forallb utf8_encodable_value l
  | PDict d =>
      forallb
        (fun item =>
           match item with
           | (k, x) => utf8_encodable k && utf8_encodable_value x
           end) d
  end.

Inductive pytype := TNoneType | TBool | TInt | TStr | TList | TDict.

Definition type_of (v : pyval) : pytype :=
  match v with
  | PNone => TNoneType
  | PBool _ => TBool
  | PInt _ => TInt
  | PStr _ => TStr
  | PList _ => TList
  | PDict _ => TDict
  end.

(** ** Exceptions *)

Inductive type_fault :=
| NotSubscriptable (t : pytype)
| BadIndex (container index : pytype)
| Unhashable (t : pytype).

(** Instances of [Exception], which is what [except Exception] catches.
    [UnicodeEncodeError content] is raised when the JSON text of [content]
    is encoded.  [ExternalError] stands for whatever is raised inside the HTTP client,
    the JSON decoder, the JSON encoder or the store driver. *)
Inductive exn :=
| KeyError (key : pyval)
| IndexError (container : pytype)
| TypeError (fault : type_fault)
| AttributeError (receiver : pytype) (attribute : str)
| UnicodeEncodeError (content : pyval)
| ExternalError (class message : str).

Definition result (A : Type) : Type := (exn + A)%type.

(** ** Operations on values *)

Fixpoint dict_lookup (k : str) (d : dict) : option pyval :=
  match d with
  | [] => None
  | (k', v) :: d' => if str_eqb k k' then Some v else dict_lookup k d'
  end.

(** [v.get(k)] *)
Definition py_get (v : pyval) (k : str) : result pyval :=
  match v with
  | PDict d =>
      match dict_lookup k d with
      | Some x => inr x
      | None => inr PNone
      end
  | _ => inl (AttributeError (type_of v) (u "get"))
  end.

(** Position of index [i] in a sequence of length [len], counting from the
    end when [i] is negative. *)
Definition seq_position (i : Z) (len : nat) : option nat :=
  let j := (if i <? 0 then Z.of_nat len + i else i)%Z in
  if ((0 <=? j) && (j <? Z.of_nat len))%Z then Some (Z.to_nat j) else None.

(** [v[i]] for an integer [i] *)
Definition py_item_int (v : pyval) (i : Z) : result pyval :=
  match v with
  | PList l =>
      match seq_position i (length l) with
      | Some n =>
          match nth_error l n with
          | Some x => inr x
          | None => inl (IndexError TList)
          end
      | None => inl (IndexError TList)
      end
  | PStr s =>
      match seq_position i (length s) with
      | Some n =>
          match nth_error s n with
          | Some c => inr (PStr [c])
          | None => inl (IndexError TStr)
          end
      | None => inl (IndexError TStr)
      end
  | PDict _ => inl (KeyError (PInt i))
  | _ => inl (TypeError (NotSubscriptable (type_of v)))
  end.

(** [v[k]] for a string [k] *)
Definition py_item_str (v : pyval) (k : str) : result pyval :=
  match v with
  | PDict d =>
      match dict_lookup k d with
      | Some x => inr x
      | None => inl (KeyError (PStr k))
      end
  | PList _ => inl (TypeError (BadIndex TList TStr))
  | PStr _ => inl (TypeError (BadIndex TStr TStr))
  | _ => inl (TypeError (NotSubscriptable (type_of v)))
  end.

(** [v.strip()] *)
Definition py_strip (v : pyval) : result str :=
  match v with
  | PStr s => inr (strip s)
  | _ => inl (AttributeError (type_of v) (u "strip"))
  end.

(** [v.strip().replace(old, new)] *)
Definition py_strip_replace (v : pyval) (old new : str) : result str :=
  match py_strip v with
  | inr s => inr (replace old new s)
  | inl e => inl e
  end.

(** *** Sets of hashable values *)

Definition hashable (v : pyval) : bool :=
  match v with
  | PNone | PBool _ | PInt _ | PStr _ => true
  | PList _ | PDict _ => false
  end.

(** [a == b] on hashable values: [bool] is a subtype of [int], so [True]
    equals [1] and [False] equals [0]. *)
Definition py_eq (a b : pyval) : bool :=
  match a, b with
  | PNone, PNone => true
  | PStr x, PStr y => str_eqb x y
  | PBool x, PBool y => Bool.eqb x y
  | PInt x, PInt y => (x =? y)%Z
  | PBool x, PInt y | PInt y, PBool x => ((if x then 1 else 0) =? y)%Z
  | _, _ => false
  end.

(** A [set] is kept as the list of its members, no two of them equal under
    [py_eq]; a member that is already present is not replaced. *)
Definition pyset := list pyval.

(** [s.add(v)] *)
Definition set_add (v : pyval) (s : pyset) : result pyset :=
  if hashable v
  then inr (if existsb (py_eq v) s then s else s ++ [v])
  else inl (TypeError (Unhashable (type_of v))).

(** ** The external collaborators *)

(** The JSON body sent to the chat-completion service. *)
Record chat_message := { role : str; content : str }.
Record chat_request := {
  model : str;
  messages : list chat_message;
  temperature : QArith_base.Q
}.

(** One entry of the log per external call. *)
Inductive event :=
| EvPost (url : str) (headers : list (str * str)) (body : chat_request)
| EvRun (query : str) (params : dict).

(** ** What the store holds and returns *)

(** One match of [(n)-[r]->(m)]: the [name] properties of the two nodes
    ([None] when a node has none; names are taken to be strings) and the
    type of the relationship. *)
Record binding := { n_name : option str; m_name : option str; r_type : str }.

Definition name_value (name : option str) : pyval :=
  match name with
  | Some s => PStr s
  | None => PNone
  end.

(** [RETURN n.name AS source, m.name AS target, type(r) AS relation] *)
Definition link_row (b : binding) : dict :=
  [ (u "source", name_value (n_name b));
    (u "target", name_value (m_name b));
    (u "relation", PStr (r_type b)) ].

(** [LIMIT n] for a non-negative [n] *)
Definition cypher_limit (n : Z) (rows : list dict) : list dict :=
  firstn (Z.to_nat n) rows.

(** Cypher predicates are three-valued. *)
Inductive tri := TriTrue | TriFalse | TriNull.

Definition cy_contains (a b : option str) : tri :=
  match a, b with
  | Some x, Some y => if contains x y then TriTrue else TriFalse
  | _, _ => TriNull
  end.

Definition cy_or (a b : tri) : tri :=
  match a, b with
  | TriTrue, _ | _, TriTrue => TriTrue
  | TriFalse, TriFalse => TriFalse
  | _, _ => TriNull
  end.

Definition tri_holds (t : tri) : bool :=
  match t with TriTrue => true | _ => false end.

(** The store of the search scenario: [A] is named "Catalyst". *)
Definition sample_graph : list binding :=
  [ {| n_name := Some (u "Catalyst"); m_name := Some (u "B");
       r_type := u "CATALYZES" |};
    {| n_name := Some (u "B"); m_name := Some (u "C"); r_type := u "AFFECTS" |};
    {| n_name := None; m_name := Some (u "C"); r_type := u "AFFECTS" |} ].

(** ** Scripted collaborators

    A small world in which the chat-completion service answers from a
    queue of prepared replies and the store gives one prepared reply to
    every query.  It is used to run the program on concrete requests. *)

Record scripted_world := {
  replies : list (result pyval);
  store_reply : result (list dict)
}.

Definition scripted_post (_ : str) (_ : list (str * str)) (_ : chat_request)
    (w : scripted_world) : result pyval * scripted_world :=
  match replies w with
  | r :: rest => (r, {| replies := rest; store_reply := store_reply w |})
  | [] => (inl (ExternalError (u "ConnectionError") (u "connection refused")), w)
  end.

Definition scripted_run (_ : str) (_ : dict) (w : scripted_world)
  : result (list dict) * scripted_world :=
  (store_reply w, w).

(** A stand-in for the serialiser: the empty list is written [[]], any
    other list as a placeholder. *)
Definition scripted_dumps (rows : list dict) : result str :=
  match rows with
  | [] => inr (u "[]")
  | _ :: _ => inr (u "[...]")
  end.

Definition scripted_exn_str (e : exn) : str :=
  match e with
  | ExternalError _ message => message
  | _ => u "error"
  end.

(** Lower case of the letters [A] to [Z], as a stand-in for the store's
    [toLower]. *)
Definition ascii_lower (s : str) : str :=
  map (fun c => if ((65 <=? c) && (c <=? 90))%N then (c + 32)%N else c) s.

(** A well-formed reply of the service whose first choice says [text]. *)
Definition chat_reply (text : str) : pyval :=
  PDict [ (u "choices",
           PList [ PDict [ (u "index", PInt 0);
                           (u "message",
                            PDict [ (u "role", PStr (u "assistant"));
                                    (u "content", PStr text) ]) ] ]) ].

(** A row of the two graph queries. *)
Definition row (source target : pyval) (relation : str) : dict :=
  [ (u "source", source); (u "target", target); (u "relation", PStr relation) ].

(** Sample configuration and requests. *)
Definition sample_url : str := u "https://api.deepseek.com/chat/completions".
Definition sample_key : str := u "sk-sample".
Definition sample_question : str := u "银催化剂如何影响反应活性".

(** The service wraps its query in a fence. *)
Definition fenced_reply : pyval :=
  chat_reply (u " ```MATCH (n:Node)-[r]-(m:Node) RETURN n, r, m``` ").

Definition sample_query : str := u "MATCH (n:Node)-[r]-(m:Node) RETURN n, r, m".

Definition answer_reply : pyval := chat_reply (u " Silver raises the activity. ").

(** The store of the scenario: [(A)-[CATALYZES]->(B)], [(B)-[AFFECTS]->(C)]. *)
Definition sample_rows : list dict :=
  [ row (PStr (u "A")) (PStr (u "B")) (u "CATALYZES");
    row (PStr (u "B")) (PStr (u "C")) (u "AFFECTS") ].

(** A row whose source name is a list property. *)
Definition list_named_row : dict :=
  row (PList [PStr (u "Ag"); PStr (u "silver")]) (PStr (u "B")) (u "CATALYZES").

Definition connected_world (store : result (list dict)) : scripted_world :=
  {| replies := [inr fenced_reply; inr answer_reply]; store_reply := store |}.


(** A reply whose content is a lone surrogate (the JSON escape for
    U+D800, as the decoder reads it). *)
Definition surrogate_reply : pyval := chat_reply [55296%N].




(** A service whose answer is the lone surrogate. *)
Definition surrogate_service (store : result (list dict)) : scripted_world :=
  {| replies := [inr fenced_reply; inr surrogate_reply]; store_reply := store |}.

(** A serialiser that refuses its rows. *)
Definition refusing_dumps (_ : list dict) : result str :=
  inl (ExternalError (u "TypeError") (u "not JSON serializable")).

(** A service that answers once, without fences. *)
Definition plain_world : scripted_world :=
  {| replies := [inr answer_reply]; store_reply := inr [] |}.

(** A reply that reports an error instead of choices. *)
Definition error_reply : pyval :=
  PDict [(u "error", PDict [(u "message", PStr (u "invalid key"))])].

Definition refusing_store : scripted_world :=
  connected_world (inl (ExternalError (u "ServiceUnavailable") (u "store down"))).

(** ** The application *)

Section Backend.

(** *** Configuration ([config.Config], not part of the program text) *)
Variable DEEPSEEK_API_URL : str.
Variable DEEPSEEK_API_KEY : str.

(** *** Collaborators *)

(** The state of everything outside the process: the store and the
    chat-completion service. *)
Variable World : Type.

(** [requests.post(url, headers=headers, json=body)] followed by
    [.json()] on the response: the parsed body, or the exception raised
    by the client or by the decoder. *)
Variable http_post_json :
  str -> list (str * str) -> chat_request -> World -> result pyval * World.

(** [session.run(query, params)] inside a scoped session, with every
    record turned into a dictionary by [record.data()]. *)
Variable session_run : str -> dict -> World -> result (list dict) * World.

(** [json.dumps(rows, indent=2, ensure_ascii=False)] *)
Variable json_dumps : list dict -> result str.

(** [str(e)] *)
Variable exn_str : exn -> str.

(** The order in which a [set] yields its members; nothing is known of
    it but that every member comes once. *)
Variable set_order : pyset -> list pyval.
Hypothesis set_order_perm : forall s, Permutation (set_order s) s.

(** The store's [toLower] on strings. *)
Variable toLower : str -> str.

(** *** Effects *)

Record state := { world : World; log : list event }.

(** A computation returns or raises, may change the world, and appends
    to the log. *)
Definition M (A : Type) : Type := state -> result A * state.

Definition ret {A} (a : A) : M A := fun st => (inr a, st).

Definition bind {A B} (c : M A) (k : A -> M B) : M B :=
  fun st =>
    match c st with
    | (inr a, st') => k a st'
    | (inl e, st') => (inl e, st')
    end.

(** [try: body  except Exception as e: handler(e)] *)
Definition try_except {A} (body : M A) (handler : exn -> M A) : M A :=
  fun st =>
    match body st with
    | (inr a, st') => (inr a, st')
    | (inl e, st') => handler e st'
    end.

Definition lift {A} (r : result A) : M A := fun st => (r, st).

Notation "x <- c ;; k" := (bind c (fun x => k))
  (at level 61, c at next level, right associativity).

Definition post_json (url : str) (headers : list (str * str))
    (body : chat_request) : M pyval :=
  fun st =>
    let '(r, w) := http_post_json url headers body (world st) in
    (r, {| world := w; log := log st ++ [EvPost url headers body] |}).

(** *** The Cypher executor *)

(** [params or {}] *)
Definition params_or_empty (params : option dict) : dict :=
  match params with
  | Some (p :: ps) => p :: ps
  | _ => []
  end.

Definition run_cypher (query : str) (params : option dict) : M (list dict) :=
  fun st =>
    let bound := params_or_empty params in
    let '(r, w) := session_run query bound (world st) in
    (r, {| world := w; log := log st ++ [EvRun query bound] |}).

(** *** The question-answering clients *)

Definition api_headers : list (str * str) :=
  [ (u "Authorization", u "Bearer " ++ DEEPSEEK_API_KEY);
    (u "Content-Type", u "application/json") ].

Definition generation_prompt (question : str) : str :=
  (u "你是一个Neo4j专家，请根据以下规则生成Cypher查询：
    知识图谱结构：
    - 节点标签：Node
    - 关键属性：name
    - 关系：各种催化、影响、促进等关系
    查询生成规则：
    1. 从问题中提取核心实体关键词
    2. 查找与关键词相关的节点和它们之间的关系
    示例：
    问题：" ++ dquote ++ u "银催化剂如何影响反应活性" ++ dquote ++ u "
    生成：" ++ dquote ++ u "MATCH (n:Node)-[r]-(m:Node) WHERE n.name CONTAINS '银' OR m.name CONTAINS '活性' RETURN n, r, m" ++ dquote ++ u "
    请为以下问题生成Cypher查询：
    问题：") ++ question.

Definition generation_request (question : str) : chat_request :=
  {| model := u "deepseek-chat";
     messages :=
       [ {| role := u "system";
            content := u "你是一个专业的Cypher查询生成助手，擅长从问题中提取关键实体。" |};
         {| role := u "user"; content := generation_prompt question |} ];
     temperature := QArith_base.Qmake 1 2 |}.

(** [response.json().get("choices")[0]["message"]["content"]] *)
Definition first_choice_content (response : pyval) : result pyval :=
  match py_get response (u "choices") with
  | inl e => inl e
  | inr choices =>
      match py_item_int choices 0 with
      | inl e => inl e
      | inr choice =>
          match py_item_str choice (u "message") with
          | inl e => inl e
          | inr message => py_item_str message (u "content")
          end
      end
  end.

(** The reply has the shape [{"choices": [{"message": {"content": c}}]}]
    with a string [c]. *)
Definition first_choice_says (response : pyval) (c : str) : Prop :=
  exists d choice others message,
    response = PDict d
    /\ dict_lookup (u "choices") d = Some (PList (PDict choice :: others))
    /\ dict_lookup (u "message") choice = Some (PDict message)
    /\ dict_lookup (u "content") message = Some (PStr c).

Definition generate_cypher_query (question : str) : M str :=
  response <- post_json DEEPSEEK_API_URL api_headers
                (generation_request question) ;;
  cypher_query <- lift (first_choice_content response) ;;
  lift (py_strip_replace cypher_query fence []).

Definition answer_prompt (dumped question : str) : str :=
  (u "请根据以下知识图谱数据，专业且简洁地回答用户问题：
    [知识图谱数据]:
    ") ++ dumped ++ (u "
    [用户问题]:
    ") ++ question ++ (u "
    请回答：").

Definition answer_request (dumped question : str) : chat_request :=
  {| model := u "deepseek-chat";
     messages :=
       [ {| role := u "system";
            content := u "你是一个材料科学领域的知识图谱分析助手。" |};
         {| role := u "user"; content := answer_prompt dumped question |} ];
     temperature := QArith_base.Qmake 1 2 |}.

Definition get_answer_from_kg (kg_records : list dict) (question : str)
  : M str :=
  dumped <- lift (json_dumps kg_records) ;;
  response <- post_json DEEPSEEK_API_URL api_headers
                (answer_request dumped question) ;;
  answer <- lift (first_choice_content response) ;;
  lift (py_strip answer).

(** *** Routes *)

Definition FULL_GRAPH_QUERY : str :=
  u "
    MATCH (n)-[r]->(m)
    RETURN 
        n.name AS source,
        m.name AS target,
        type(r) AS relation
    LIMIT $limit
    ".

Definition SEARCH_QUERY : str :=
  u "
    MATCH (n)-[r]->(m)
    WHERE toLower(n.name) CONTAINS toLower($q) OR toLower(m.name) CONTAINS toLower($q)
    RETURN 
        n.name AS source,
        m.name AS target,
        type(r) AS relation
    LIMIT 100
    ".

(** The loop that collects the node names of a list of links. *)
Fixpoint collect_node_names (links : list dict) (node_names : pyset)
  : result pyset :=
  match links with
  | [] => inr node_names
  | link :: rest =>
      match py_item_str (PDict link) (u "source") with
      | inl e => inl e
      | inr source =>
          match set_add source node_names with
          | inl e => inl e
          | inr names1 =>
              match py_item_str (PDict link) (u "target") with
              | inl e => inl e
              | inr target =>
                  match set_add target names1 with
                  | inl e => inl e
                  | inr names2 => collect_node_names rest names2
                  end
              end
          end
      end
  end.

(** The projection both graph routes build from the rows of the
    executor: the node names, each wrapped as [{"name": name}], and the
    rows themselves. *)
Definition projection (names : list pyval) (links : list dict) : pyval :=
  let nodes := map (fun name => PDict [(u "name", name)]) names in
  PDict [ (u "nodes", PList nodes); (u "links", PList (map PDict links)) ].

Definition build_projection (links : list dict) : result pyval :=
  match collect_node_names links [] with
  | inl e => inl e
  | inr node_names => inr (projection (set_order node_names) links)
  end.

(** [v] is the source or the target of one of the links. *)
Definition endpoint_of (links : list dict) (v : pyval) : Prop :=
  exists link,
    In link links
    /\ (dict_lookup (u "source") link = Some v
        \/ dict_lookup (u "target") link = Some v).

(** The link has a source and a target, both hashable. *)
Definition hashable_endpoints (link : dict) : Prop :=
  exists source target,
    dict_lookup (u "source") link = Some source
    /\ dict_lookup (u "target") link = Some target
    /\ hashable source = true /\ hashable target = true.

(** No two members are equal in Python's sense. *)
Definition pairwise_distinct (s : list pyval) : Prop :=
  NoDup s /\ forall a b, In a s -> In b s -> py_eq a b = true -> a = b.

Definition get_full_graph (limit : Z) : M pyval :=
  links <- run_cypher FULL_GRAPH_QUERY (Some [(u "limit", PInt limit)]) ;;
  lift (build_projection links).

Definition search_subgraph (q : str) : M pyval :=
  links <- run_cypher SEARCH_QUERY (Some [(u "q", PStr q)]) ;;
  lift (build_projection links).

(** A [JSONResponse] that was built. *)
Record JSONResponse := { resp_content : pyval; status_code : Z }.

(** [JSONResponse(content=..., status_code=...)]: the constructor renders
    the body, the JSON text of the content encoded as UTF-8, and raises
    when the text cannot be encoded. *)
Definition json_response (content : pyval) (status : Z) : result JSONResponse :=
  if utf8_encodable_value content
  then inr {| resp_content := content; status_code := status |}
  else inl (UnicodeEncodeError content).

Definition ask_question (q : str) : M JSONResponse :=
  try_except
    (cypher_query <- generate_cypher_query q ;;
     kg_records <- run_cypher cypher_query None ;;
     answer <- get_answer_from_kg kg_records q ;;
     lift (json_response (PDict [(u "answer", PStr answer)]) 200))
    (fun e =>
       lift (json_response
               (PDict [(u "answer", PStr (u "Error: " ++ exn_str e))]) 500)).

(** *** The HTTP layer *)

(** What a request ends in: the response of the handler, a rejection by
    the parameter validation of the framework (status 422), or an
    exception that left the handler (status 500, no body of the
    program's own). *)
Inductive http_outcome :=
| Responded (status : Z) (body : pyval)
| ValidationRejected (parameter : str)
| ServerError (e : exn).

Definition http_status (o : http_outcome) : Z :=
  match o with
  | Responded status _ => status
  | ValidationRejected _ => 422
  | ServerError _ => 500
  end.

Definition serve {A} (render : A -> http_outcome) (handler : M A)
  : state -> http_outcome * state :=
  fun st =>
    match handler st with
    | (inr a, st') => (render a, st')
    | (inl e, st') => (ServerError e, st')
    end.

(** What the framework does with a dictionary a handler returned: it
    builds [JSONResponse(content)], with status 200, after the handler;
    an exception raised there is not the handler's to catch. *)
Definition respond_json (body : pyval) : http_outcome :=
  match json_response body 200 with
  | inr r => Responded (status_code r) (resp_content r)
  | inl e => ServerError e
  end.

(** [GET /api/graph], declared [limit: int = 300]. *)
Definition api_graph (limit : option Z) : state -> http_outcome * state :=
  serve respond_json
    (get_full_graph (match limit with Some l => l | None => 300 end)).

(** [GET /api/search], declared [q: str = Query(..., min_length=1)]:
    the parameter is required and shorter values are refused before the
    handler is entered. *)
Definition api_search (q : option str) : state -> http_outcome * state :=
  match q with
  | None => fun st => (ValidationRejected (u "q"), st)
  | Some s =>
      if (length s <? 1)%nat
      then fun st => (ValidationRejected (u "q"), st)
      else serve respond_json (search_subgraph s)
  end.

(** [GET /api/ask_question], declared [q: str]. *)
Definition api_ask_question (q : option str)
  : state -> http_outcome * state :=
  match q with
  | None => fun st => (ValidationRejected (u "q"), st)
  | Some s =>
      serve (fun r => Responded (status_code r) (resp_content r))
        (ask_question s)
  end.

(** *** What the store does with the search query *)

Definition cy_toLower (v : option str) : option str :=
  option_map toLower v.

(** [WHERE toLower(n.name) CONTAINS toLower($q)
       OR toLower(m.name) CONTAINS toLower($q)] *)
Definition where_search (q : str) (b : binding) : tri :=
  cy_or (cy_contains (cy_toLower (n_name b)) (cy_toLower (Some q)))
        (cy_contains (cy_toLower (m_name b)) (cy_toLower (Some q))).

(** The rows of the search query over the matches [g] of the pattern,
    in the order the store enumerates them. *)
Definition cypher_search (g : list binding) (q : str) : list dict :=
  cypher_limit 100
    (map link_row (filter (fun b => tri_holds (where_search q b)) g)).

(** [q] is a case-insensitive substring of [name]: lowered, it stands
    somewhere inside the lowered name. *)
Definition ci_substring (q name : str) : Prop :=
  exists before after, toLower name = before ++ toLower q ++ after.

(** ** Properties of the string operations *)

Lemma str_eqb_refl (s : str) : str_eqb s s = true.
Proof.
  induction s as [|c s IH]; simpl; [reflexivity|].
  now rewrite N.eqb_refl.
Qed.

Lemma str_eqb_eq (a b : str) : str_eqb a b = true <-> a = b.
Proof.
  split.
  - revert b; induction a as [|x a IH]; intros [|y b] H; simpl in H;
      try discriminate; [reflexivity|].
    apply andb_true_iff in H as [Hxy Hab].
    apply N.eqb_eq in Hxy. now rewrite Hxy, (IH b Hab).
  - intros ->. apply str_eqb_refl.
Qed.

Lemma starts_with_prefix (p s : str) :
  starts_with p s = true <-> exists t, s = p ++ t.
Proof.
  revert s; induction p as [|x p IH]; intros s; simpl.
  - split; [intros _; now exists s | reflexivity].
  - destruct s as [|y s].
    + split; [discriminate | intros [t Ht]; discriminate].
    + rewrite andb_true_iff, N.eqb_eq, IH. split.
      * intros [-> [t ->]]. now exists t.
      * intros [t Ht]. injection Ht as -> ->. split; [reflexivity | now exists t].
Qed.

Lemma contains_infix (s p : str) :
  contains s p = true <-> exists a b, s = a ++ p ++ b.
Proof.
  split.
  - induction s as [|c s IH]; cbn [contains]; rewrite orb_true_iff.
    + intros [H | H]; [|discriminate].
      apply starts_with_prefix in H as [t Ht]. now exists [], t.
    + intros [H | H].
      * apply starts_with_prefix in H as [t Ht]. now exists [], t.
      * destruct (IH H) as (a & b & ->). now exists (c :: a), b.
  - intros (a & b & ->). induction a as [|x a IH].
    + assert (H : starts_with p (p ++ b) = true)
        by (apply starts_with_prefix; now exists b).
      cbn [app]. destruct (p ++ b); cbn [contains]; now rewrite H.
    + cbn [app contains]. rewrite IH. apply orb_true_r.
Qed.

Lemma lstrip_split (s : str) :
  exists pre, s = pre ++ lstrip s /\ forallb isspace pre = true.
Proof.
  induction s as [|c s [pre [Hs Hpre]]]; simpl.
  - exists []. split; reflexivity.
  - destruct (isspace c) eqn:Hc.
    + exists (c :: pre). simpl. rewrite Hc, Hpre. split; [now f_equal | reflexivity].
    + exists []. split; reflexivity.
Qed.

Lemma lstrip_head (s : str) (c : codepoint) (t : str) :
  lstrip s = c :: t -> isspace c = false.
Proof.
  induction s as [|x s IH]; simpl; [discriminate|].
  destruct (isspace x) eqn:Hx; [exact IH|].
  intros H. injection H as <- _. exact Hx.
Qed.

Lemma rstrip_split (s : str) :
  exists suf, s = rstrip s ++ suf /\ forallb isspace suf = true.
Proof.
  unfold rstrip.
  destruct (lstrip_split (rev s)) as [pre [Hs Hpre]].
  exists (rev pre). split.
  - rewrite <- rev_app_distr, <- Hs. symmetry. apply rev_involutive.
  - rewrite forallb_forall in *. intros x Hx. apply Hpre. now apply in_rev.
Qed.

Lemma rstrip_last (s t : str) (c : codepoint) :
  rstrip s = t ++ [c] -> isspace c = false.
Proof.
  unfold rstrip. intros H.
  apply (f_equal (@rev codepoint)) in H.
  rewrite rev_involutive, rev_app_distr in H. simpl in H.
  exact (lstrip_head _ _ _ H).
Qed.

(** [strip] takes a run of whitespace off each end and nothing else. *)
Lemma strip_split (s : str) :
  exists pre suf,
    s = pre ++ strip s ++ suf
    /\ forallb isspace pre = true /\ forallb isspace suf = true.
Proof.
  destruct (lstrip_split s) as [pre [Hs Hpre]].
  destruct (rstrip_split (lstrip s)) as [suf [Hl Hsuf]].
  exists pre, suf. unfold strip. now rewrite <- Hl.
Qed.

Lemma strip_first (s : str) (c : codepoint) (t : str) :
  strip s = c :: t -> isspace c = false.
Proof.
  unfold strip. intros H.
  destruct (rstrip_split (lstrip s)) as [suf [Hl _]].
  rewrite H in Hl. simpl in Hl.
  exact (lstrip_head _ _ _ Hl).
Qed.

Lemma strip_last (s t : str) (c : codepoint) :
  strip s = t ++ [c] -> isspace c = false.
Proof. apply rstrip_last. Qed.

(** Removal of the fence marker, by cases on the head of the string. *)
Lemma replace_fence_nil : replace fence [] [] = [].
Proof. reflexivity. Qed.

Lemma replace_fence_skip (t : str) :
  replace fence [] (fence ++ t) = replace fence [] t.
Proof. reflexivity. Qed.

Lemma replace_fence_keep (c : codepoint) (t : str) :
  starts_with fence (c :: t) = false ->
  replace fence [] (c :: t) = c :: replace fence [] t.
Proof.
  intros H. change (replace fence [] (c :: t))
    with (if starts_with fence (c :: t)
          then [] ++ replace_from fence [] 2 t
          else c :: replace_from fence [] 0 t).
  now rewrite H.
Qed.

(** A string is empty, starts with a fence, or starts with a character
    that does not open a fence. *)
Lemma fence_ind (P : str -> Prop) :
  P [] ->
  (forall t, P t -> P (fence ++ t)) ->
  (forall c t, starts_with fence (c :: t) = false -> P t -> P (c :: t)) ->
  forall s, P s.
Proof.
  intros Hnil Hskip Hkeep s.
  remember (length s) as n eqn:Hn.
  revert s Hn. induction n as [n IH] using lt_wf_ind. intros s Hn.
  destruct s as [|c t]; [exact Hnil|].
  destruct (starts_with fence (c :: t)) eqn:Hsw.
  - apply starts_with_prefix in Hsw as [t' Ht']. rewrite Ht'.
    apply Hskip. apply (IH (length t')); [|reflexivity].
    subst n. rewrite Ht', length_app. simpl. lia.
  - apply Hkeep; [exact Hsw|].
    apply (IH (length t)); [|reflexivity].
    subst n. simpl. lia.
Qed.

(** The result is the string with some occurrences of the fence taken
    out: the pieces between them, unchanged and in order. *)
Lemma replace_fence_pieces (s : str) :
  exists p ps,
    s = join fence (p :: ps) /\ replace fence [] s = concat (p :: ps).
Proof.
  induction s as [|t [p [ps [Ht Hr]]]|c t Hsw [p [ps [Ht Hr]]]] using fence_ind.
  - exists [], []. split; reflexivity.
  - exists [], (p :: ps). rewrite replace_fence_skip, Hr. split.
    + change (join fence ([] :: p :: ps)) with (fence ++ join fence (p :: ps)).
      now rewrite <- Ht.
    + reflexivity.
  - exists (c :: p), ps. rewrite (replace_fence_keep _ _ Hsw), Hr. split.
    + rewrite Ht. destruct ps; reflexivity.
    + reflexivity.
Qed.

Lemma starts_with_fence_leading (s : str) :
  starts_with fence s = true <-> 3 <= leading_backticks s.
Proof.
  change fence with [96; 96; 96]%N.
  destruct s as [|a [|b [|c t]]]; cbn [starts_with leading_backticks];
    rewrite ?(N.eqb_sym 96);
    repeat match goal with
           | |- context [(?x =? 96)%N] => destruct (x =? 96)%N
           end; cbn [andb]; split; intros H; try discriminate; try lia;
    reflexivity.
Qed.

Lemma replace_fence_leading (s : str) :
  leading_backticks (replace fence [] s) = leading_backticks s mod 3.
Proof.
  induction s as [|t IH|c t Hsw IH] using fence_ind.
  - reflexivity.
  - rewrite replace_fence_skip, IH.
    change (leading_backticks (fence ++ t)) with (3 + leading_backticks t).
    now rewrite <- (Nat.Div0.add_mod_idemp_l 3), Nat.Div0.mod_same.
  - rewrite (replace_fence_keep _ _ Hsw).
    assert (Hlt : leading_backticks (c :: t) < 3).
    { destruct (Nat.lt_ge_cases (leading_backticks (c :: t)) 3) as [H|H];
        [exact H|]. apply starts_with_fence_leading in H. congruence. }
    rewrite (Nat.mod_small _ _ Hlt). cbn [leading_backticks] in *.
    destruct (c =? 96)%N; [|reflexivity].
    rewrite IH. rewrite Nat.mod_small by lia. reflexivity.
Qed.

Lemma replace_fence_no_prefix (s : str) :
  starts_with fence (replace fence [] s) = false.
Proof.
  destruct (starts_with fence (replace fence [] s)) eqn:H; [|reflexivity].
  apply starts_with_fence_leading in H.
  rewrite replace_fence_leading in H.
  pose proof (Nat.mod_upper_bound (leading_backticks s) 3). lia.
Qed.

Lemma replace_fence_suffix (s pre post : str) :
  replace fence [] s = pre ++ post -> exists s', post = replace fence [] s'.
Proof.
  revert pre post.
  induction s as [|t IH|c t Hsw IH] using fence_ind; intros pre post H.
  - rewrite replace_fence_nil in H. destruct pre; [|discriminate].
    exists []. symmetry. exact H.
  - rewrite replace_fence_skip in H. exact (IH _ _ H).
  - rewrite (replace_fence_keep _ _ Hsw) in H.
    destruct pre as [|x pre].
    + exists (c :: t). now rewrite (replace_fence_keep _ _ Hsw).
    + injection H as _ H. exact (IH _ _ H).
Qed.

(** No fence is left in the result. *)
Lemma replace_fence_free (s pre post : str) :
  replace fence [] s <> pre ++ fence ++ post.
Proof.
  intros H. apply replace_fence_suffix in H as [s' Hs'].
  pose proof (replace_fence_no_prefix s') as Hno.
  rewrite <- Hs' in Hno.
  assert (starts_with fence (fence ++ post) = true) as Hyes
    by (apply starts_with_prefix; now exists post).
  congruence.
Qed.

(** ** The question-answering pipeline *)

Lemma seq_position_first (n : nat) : seq_position 0 (S n) = Some 0%nat.
Proof.
  unfold seq_position. rewrite Nat2Z.inj_succ.
  change (0 <? 0)%Z with false. cbn [Z.leb Z.compare andb].
  destruct (Z.ltb_spec 0 (Z.succ (Z.of_nat n))); [reflexivity | lia].
Qed.

Lemma py_item_int_first (x : pyval) (l : list pyval) :
  py_item_int (PList (x :: l)) 0 = inr x.
Proof.
  unfold py_item_int. cbn [length]. now rewrite seq_position_first.
Qed.

Lemma first_choice_says_content (response : pyval) (c : str) :
  first_choice_says response c ->
  first_choice_content response = inr (PStr c).
Proof.
  intros (d & choice & others & message & -> & Hc & Hm & Hs).
  unfold first_choice_content. cbn [py_get]. rewrite Hc.
  rewrite py_item_int_first. cbn [py_item_str]. rewrite Hm.
  cbn [py_item_str]. now rewrite Hs.
Qed.

Lemma generate_cypher_query_log (q : str) (st : state) :
  log (snd (generate_cypher_query q st))
  = log st ++ [EvPost DEEPSEEK_API_URL api_headers (generation_request q)].
Proof.
  unfold generate_cypher_query, bind, post_json, lift.
  destruct (http_post_json _ _ _ _) as [[e|response] w]; [reflexivity|].
  destruct (first_choice_content response); reflexivity.
Qed.

Lemma run_cypher_log (query : str) (params : option dict) (st : state) :
  log (snd (run_cypher query params st))
  = log st ++ [EvRun query (params_or_empty params)].
Proof.
  unfold run_cypher.
  destruct (session_run _ _ _) as [r w]. reflexivity.
Qed.

Lemma get_answer_from_kg_log (rows : list dict) (q : str) (st : state) :
  match json_dumps rows with
  | inr dumped =>
      log (snd (get_answer_from_kg rows q st))
      = log st ++ [EvPost DEEPSEEK_API_URL api_headers (answer_request dumped q)]
  | inl _ => log (snd (get_answer_from_kg rows q st)) = log st
  end.
Proof.
  unfold get_answer_from_kg, bind, post_json, lift.
  destruct (json_dumps rows) as [e|dumped]; [reflexivity|].
  destruct (http_post_json _ _ _ _) as [[e|response] w]; [reflexivity|].
  destruct (first_choice_content response); reflexivity.
Qed.

(** C7. When the service replies with a document whose first choice has
    the string [c] as message content, the query-generation client
    returns [c] with the whitespace at both ends stripped and then every
    fence marker removed: what is stripped is whitespace only, the
    stripped text neither starts nor ends with whitespace, the result
    is the stripped text with fence markers cut out and the pieces
    between them unchanged, and no fence marker is left in it. *)
Theorem generate_cypher_query_strips_content :
  forall (question : str) (st : state) (response : pyval) (w : World) (c : str),
    http_post_json DEEPSEEK_API_URL api_headers
      (generation_request question) (world st) = (inr response, w) ->
    first_choice_says response c ->
    exists query pre suf p ps,
      fst (generate_cypher_query question st) = inr query
      /\ query = replace fence [] (strip c)
      /\ c = pre ++ strip c ++ suf
      /\ forallb isspace pre = true /\ forallb isspace suf = true
      /\ (forall x t, strip c = x :: t -> isspace x = false)
      /\ (forall t x, strip c = t ++ [x] -> isspace x = false)
      /\ strip c = join fence (p :: ps)
      /\ query = concat (p :: ps)
      /\ (forall a b, query <> a ++ fence ++ b).
Proof.
  intros question st response w c Hpost Hshape.
  destruct (strip_split c) as (pre & suf & Hc & Hpre & Hsuf).
  destruct (replace_fence_pieces (strip c)) as (p & ps & Hj & Hcat).
  exists (replace fence [] (strip c)), pre, suf, p, ps.
  repeat split; try assumption.
  - unfold generate_cypher_query, bind, post_json, lift.
    rewrite Hpost, (first_choice_says_content _ _ Hshape). reflexivity.
  - intros x t. apply strip_first.
  - intros t x. apply strip_last.
  - intros a b. apply replace_fence_free.
Qed.

(** *** Building the response *)

Lemma utf8_encodable_app (a b : str) :
  utf8_encodable (a ++ b) = utf8_encodable a && utf8_encodable b.
Proof. apply forallb_app. Qed.

Lemma utf8_encodable_error (message : str) :
  utf8_encodable (u "Error: " ++ message) = utf8_encodable message.
Proof. rewrite utf8_encodable_app. reflexivity. Qed.

Lemma json_response_answer (text : str) (status : Z) :
  json_response (PDict [(u "answer", PStr text)]) status
  = if utf8_encodable text
    then inr {| resp_content := PDict [(u "answer", PStr text)];
                status_code := status |}
    else inl (UnicodeEncodeError (PDict [(u "answer", PStr text)])).
Proof.
  unfold json_response. cbn [utf8_encodable_value forallb].
  change (utf8_encodable (u "answer")) with true. cbn [andb].
  rewrite andb_true_r. reflexivity.
Qed.

(** Building a response touches neither the world nor the log: the state
    the endpoint ends in is the state its last step left. *)
Lemma ask_question_state (q : str) (st : state) :
  snd (ask_question q st)
  = match generate_cypher_query q st with
    | (inl _, st1) => st1
    | (inr query, st1) =>
        match run_cypher query None st1 with
        | (inl _, st2) => st2
        | (inr rows, st2) => snd (get_answer_from_kg rows q st2)
        end
    end.
Proof.
  unfold ask_question, try_except, bind, lift.
  destruct (generate_cypher_query q st) as [[e|query] st1]; [reflexivity|].
  destruct (run_cypher query None st1) as [[e|rows] st2]; [reflexivity|].
  destruct (get_answer_from_kg rows q st2) as [[e|answer] st3]; [reflexivity|].
  destruct (json_response _ 200); reflexivity.
Qed.

(** The endpoint when a step raised [e]. *)
Lemma ask_question_on_failure (q : str) (st st' : state) (e : exn) :
  (generate_cypher_query q st = (inl e, st')
   \/ (exists query st1,
         generate_cypher_query q st = (inr query, st1)
         /\ run_cypher query None st1 = (inl e, st'))
   \/ (exists query st1 rows st2,
         generate_cypher_query q st = (inr query, st1)
         /\ run_cypher query None st1 = (inr rows, st2)
         /\ get_answer_from_kg rows q st2 = (inl e, st'))) ->
  ask_question q st
  = (json_response (PDict [(u "answer", PStr (u "Error: " ++ exn_str e))]) 500,
     st').
Proof.
  unfold ask_question, try_except, bind, lift.
  intros [Hg | [(query & st1 & Hg & Hr)
              | (query & st1 & rows & st2 & Hg & Hr & Ha)]].
  - now rewrite Hg.
  - now rewrite Hg, Hr.
  - now rewrite Hg, Hr, Ha.
Qed.

(** The endpoint when the three steps succeeded. *)
Lemma ask_question_on_success (q query answer : str) (rows : list dict)
    (st st1 st2 st3 : state) :
  generate_cypher_query q st = (inr query, st1) ->
  run_cypher query None st1 = (inr rows, st2) ->
  get_answer_from_kg rows q st2 = (inr answer, st3) ->
  ask_question q st
  = (match json_response (PDict [(u "answer", PStr answer)]) 200 with
     | inr r => inr r
     | inl e =>
         json_response
           (PDict [(u "answer", PStr (u "Error: " ++ exn_str e))]) 500
     end, st3).
Proof.
  intros Hg Hr Ha. unfold ask_question, try_except, bind, lift.
  rewrite Hg, Hr, Ha.
  destruct (json_response (PDict [(u "answer", PStr answer)]) 200);
    reflexivity.
Qed.

Lemma ask_question_calls (q : str) (st : state) :
  exists evs,
    log (snd (ask_question q st)) = log st ++ evs
    /\ (evs = [EvPost DEEPSEEK_API_URL api_headers (generation_request q)]
        \/ (exists query,
              evs = [EvPost DEEPSEEK_API_URL api_headers (generation_request q);
                     EvRun query []])
        \/ (exists query rows dumped,
              json_dumps rows = inr dumped
              /\ evs = [EvPost DEEPSEEK_API_URL api_headers (generation_request q);
                        EvRun query [];
                        EvPost DEEPSEEK_API_URL api_headers
                          (answer_request dumped q)])).
Proof.
  rewrite ask_question_state.
  pose proof (generate_cypher_query_log q st) as Hg.
  destruct (generate_cypher_query q st) as [[e|query] st1]; cbn [snd] in *.
  - eexists. split; [exact Hg | now left].
  - pose proof (run_cypher_log query None st1) as Hr.
    destruct (run_cypher query None st1) as [[e|rows] st2]; cbn [snd] in *;
      rewrite Hg, <- app_assoc in Hr; cbn [app params_or_empty] in Hr.
    + eexists. split; [exact Hr | right; left; now exists query].
    + pose proof (get_answer_from_kg_log rows q st2) as Ha.
      destruct (json_dumps rows) as [e|dumped] eqn:Hd.
      * rewrite Hr in Ha.
        eexists. split; [exact Ha | right; left; now exists query].
      * rewrite Hr, <- app_assoc in Ha. cbn [app] in Ha.
        eexists. split;
          [exact Ha | right; right; now exists query, rows, dumped].
Qed.

(** C1, as the program has it.  The question-answering endpoint makes
    its external calls in one fixed order: the query-generation request
    for [q], then the execution of a query with no bound parameters,
    then the answer-synthesis request for [q]; it never makes any other
    call.  When the three steps succeed, the query executed is the
    generated one and the rows given to the synthesis are the rows of
    that query; the response is [{"answer": answer}] with status 200
    when the answer can be encoded as UTF-8.  When it cannot, building
    the response raises inside the [try], and the endpoint answers as it
    does for a failure. *)
Theorem ask_question_three_steps :
  forall (q : str) (st : state),
    (exists evs,
       log (snd (ask_question q st)) = log st ++ evs
       /\ (evs = [EvPost DEEPSEEK_API_URL api_headers (generation_request q)]
           \/ (exists query,
                 evs = [EvPost DEEPSEEK_API_URL api_headers (generation_request q);
                        EvRun query []])
           \/ (exists query rows dumped,
                 json_dumps rows = inr dumped
                 /\ evs = [EvPost DEEPSEEK_API_URL api_headers
                             (generation_request q);
                           EvRun query [];
                           EvPost DEEPSEEK_API_URL api_headers
                             (answer_request dumped q)])))
    /\ (forall query st1 rows st2 answer st3,
          generate_cypher_query q st = (inr query, st1) ->
          run_cypher query None st1 = (inr rows, st2) ->
          get_answer_from_kg rows q st2 = (inr answer, st3) ->
          (exists dumped,
              json_dumps rows = inr dumped
              /\ log st3
                 = log st
                   ++ [EvPost DEEPSEEK_API_URL api_headers (generation_request q);
                       EvRun query [];
                       EvPost DEEPSEEK_API_URL api_headers
                         (answer_request dumped q)])
          /\ snd (ask_question q st) = st3
          /\ (utf8_encodable answer = true ->
              ask_question q st
              = (inr {| resp_content := PDict [(u "answer", PStr answer)];
                        status_code := 200 |}, st3)
              /\ api_ask_question (Some q) st
                 = (Responded 200 (PDict [(u "answer", PStr answer)]), st3))
          /\ (utf8_encodable answer = false ->
              fst (ask_question q st)
              = json_response
                  (PDict [(u "answer",
                           PStr (u "Error: "
                                 ++ exn_str
                                      (UnicodeEncodeError
                                         (PDict [(u "answer", PStr answer)]))))])
                  500)).
Proof.
  intros q st. split; [apply ask_question_calls|].
  intros query st1 rows st2 answer st3 Hg Hr Ha.
  pose proof (ask_question_on_success _ _ _ _ _ _ _ _ Hg Hr Ha) as Hask.
  rewrite json_response_answer in Hask.
  split; [|split; [now rewrite Hask | split]].
  - pose proof (generate_cypher_query_log q st) as Lg.
    pose proof (run_cypher_log query None st1) as Lr.
    pose proof (get_answer_from_kg_log rows q st2) as La.
    rewrite Hg in Lg. rewrite Hr in Lr. rewrite Ha in La. cbn [snd] in *.
    destruct (json_dumps rows) as [e|dumped] eqn:Hd.
    + exfalso. unfold get_answer_from_kg, bind, lift in Ha.
      rewrite Hd in Ha. discriminate.
    + exists dumped. split; [reflexivity|].
      rewrite La, Lr, Lg, <- !app_assoc. reflexivity.
  - intros Henc. rewrite Henc in Hask. split; [exact Hask|].
    unfold api_ask_question, serve. now rewrite Hask.
  - intros Henc. rewrite Henc in Hask. now rewrite Hask.
Qed.


(** C6, as the program has it.  When generation and execution succeed
    and the store returns no row, the answer-synthesis request is still
    sent, built from the serialisation of the empty list.  The reply of
    the service, trimmed, is returned with status 200 when it can be
    encoded as UTF-8; when it cannot, building the response raises
    inside the [try] and the endpoint answers as it does for a
    failure. *)
Theorem ask_question_empty_result :
  forall (q : str) (st st1 : state) (query dumped : str)
         (w2 w3 : World) (response : pyval) (c : str),
    generate_cypher_query q st = (inr query, st1) ->
    session_run query [] (world st1) = (inr [], w2) ->
    json_dumps [] = inr dumped ->
    http_post_json DEEPSEEK_API_URL api_headers (answer_request dumped q) w2
    = (inr response, w3) ->
    first_choice_says response c ->
    let st3 :=
      {| world := w3;
         log := log st1
                ++ [EvRun query [];
                    EvPost DEEPSEEK_API_URL api_headers
                      (answer_request dumped q)] |} in
    snd (ask_question q st) = st3
    /\ (utf8_encodable (strip c) = true ->
        ask_question q st
        = (inr {| resp_content := PDict [(u "answer", PStr (strip c))];
                  status_code := 200 |}, st3)
        /\ api_ask_question (Some q) st
           = (Responded 200 (PDict [(u "answer", PStr (strip c))]), st3))
    /\ (utf8_encodable (strip c) = false ->
        fst (ask_question q st)
        = json_response
            (PDict [(u "answer",
                     PStr (u "Error: "
                           ++ exn_str
                                (UnicodeEncodeError
                                   (PDict [(u "answer", PStr (strip c))]))))])
            500).
Proof.
  intros q st st1 query dumped w2 w3 response c Hg Hrun Hd Hpost Hshape st3.
  assert (Hr : run_cypher query None st1
               = (inr [], {| world := w2;
                             log := log st1 ++ [EvRun query []] |})).
  { unfold run_cypher. cbn [params_or_empty]. now rewrite Hrun. }
  assert (Ha : get_answer_from_kg [] q
                 {| world := w2; log := log st1 ++ [EvRun query []] |}
               = (inr (strip c), st3)).
  { unfold get_answer_from_kg, bind, lift, post_json. rewrite Hd.
    cbn [world log]. rewrite Hpost, (first_choice_says_content _ _ Hshape).
    cbn [py_strip]. subst st3. rewrite <- app_assoc. reflexivity. }
  pose proof (ask_question_on_success _ _ _ _ _ _ _ _ Hg Hr Ha) as Hask.
  rewrite json_response_answer in Hask.
  split; [now rewrite Hask | split]; intros Henc; rewrite Henc in Hask.
  - split; [exact Hask|].
    unfold api_ask_question, serve. now rewrite Hask.
  - now rewrite Hask.
Qed.

(** ** The graph projection *)

Lemma py_eq_sym (a b : pyval) : py_eq a b = py_eq b a.
Proof.
  destruct a, b; cbn [py_eq]; try reflexivity.
  - now destruct b, b0.
  - apply Z.eqb_sym.
  - apply eq_true_iff_eq. rewrite !str_eqb_eq. split; congruence.
Qed.

Lemma py_eq_refl (a : pyval) : hashable a = true -> py_eq a a = true.
Proof.
  destruct a; cbn [py_eq hashable]; try discriminate; intros _.
  - reflexivity.
  - now destruct b.
  - apply Z.eqb_refl.
  - apply str_eqb_refl.
Qed.


Lemma py_item_str_dict (link : dict) (k : str) (v : pyval) :
  py_item_str (PDict link) k = inr v <-> dict_lookup k link = Some v.
Proof.
  cbn [py_item_str]. destruct (dict_lookup k link); split; congruence.
Qed.

Lemma set_add_inr (v : pyval) (s s' : pyset) :
  set_add v s = inr s' ->
  hashable v = true /\ s' = if existsb (py_eq v) s then s else s ++ [v].
Proof.
  unfold set_add. destruct (hashable v); [|discriminate].
  intros H. injection H as <-. split; reflexivity.
Qed.

Lemma set_add_incl (v : pyval) (s s' : pyset) :
  set_add v s = inr s' -> incl s s'.
Proof.
  intros H. apply set_add_inr in H as [_ ->].
  destruct (existsb (py_eq v) s); [apply incl_refl | now apply incl_appl, incl_refl].
Qed.

Lemma set_add_origin (v : pyval) (s s' : pyset) (x : pyval) :
  set_add v s = inr s' -> In x s' -> In x s \/ x = v.
Proof.
  intros H. apply set_add_inr in H as [_ ->].
  destruct (existsb (py_eq v) s); [now left|].
  intros Hx. apply in_app_or in Hx as [Hx | [<- | []]]; [now left | now right].
Qed.

Lemma set_add_member (v : pyval) (s s' : pyset) :
  set_add v s = inr s' -> exists n, In n s' /\ py_eq v n = true.
Proof.
  intros H. apply set_add_inr in H as [Hh ->].
  destruct (existsb (py_eq v) s) eqn:He.
  - apply existsb_exists in He. exact He.
  - exists v. split; [apply in_or_app; right; now left | now apply py_eq_refl].
Qed.

Lemma set_add_distinct (v : pyval) (s s' : pyset) :
  set_add v s = inr s' -> pairwise_distinct s -> pairwise_distinct s'.
Proof.
  intros H [Hnd Heq]. apply set_add_inr in H as [Hh ->].
  destruct (existsb (py_eq v) s) eqn:He; [now split|].
  assert (Hfresh : forall x, In x s -> py_eq v x = false).
  { intros x Hx. destruct (py_eq v x) eqn:E; [|reflexivity].
    assert (existsb (py_eq v) s = true) by (apply existsb_exists; eauto).
    congruence. }
  split.
  - apply NoDup_app; [exact Hnd | repeat constructor; intros [] |].
    intros x Hx [<- | []].
    specialize (Hfresh _ Hx). rewrite (py_eq_refl _ Hh) in Hfresh. discriminate.
  - intros a b Ha Hb Hab.
    apply in_app_or in Ha as [Ha | [<- | []]];
      apply in_app_or in Hb as [Hb | [<- | []]].
    + now apply Heq.
    + rewrite py_eq_sym, (Hfresh _ Ha) in Hab. discriminate.
    + rewrite (Hfresh _ Hb) in Hab. discriminate.
    + reflexivity.
Qed.

(** What one pass of the loop body does, when the whole loop succeeds. *)
Lemma collect_node_names_cons (link : dict) (rest : list dict) (s s' : pyset) :
  collect_node_names (link :: rest) s = inr s' ->
  exists source target s1 s2,
    dict_lookup (u "source") link = Some source
    /\ set_add source s = inr s1
    /\ dict_lookup (u "target") link = Some target
    /\ set_add target s1 = inr s2
    /\ collect_node_names rest s2 = inr s'.
Proof.
  cbn [collect_node_names].
  destruct (py_item_str (PDict link) (u "source")) as [e|source] eqn:Hs;
    [discriminate|].
  destruct (set_add source s) as [e|s1] eqn:H1; [discriminate|].
  destruct (py_item_str (PDict link) (u "target")) as [e|target] eqn:Ht;
    [discriminate|].
  destruct (set_add target s1) as [e|s2] eqn:H2; [discriminate|].
  intros H. exists source, target, s1, s2.
  apply py_item_str_dict in Hs, Ht. repeat split; assumption.
Qed.

Lemma collect_node_names_spec (links : list dict) :
  forall s s',
    collect_node_names links s = inr s' ->
    incl s s'
    /\ (pairwise_distinct s -> pairwise_distinct s')
    /\ (forall x, In x s' -> In x s \/ endpoint_of links x)
    /\ (forall v, endpoint_of links v -> exists n, In n s' /\ py_eq v n = true).
Proof.
  induction links as [|link rest IH]; intros s s' H.
  - cbn [collect_node_names] in H. injection H as <-.
    split; [apply incl_refl | split; [auto | split]].
    + intros x Hx. now left.
    + intros v (link & [] & _).
  - apply collect_node_names_cons in H
      as (source & target & s1 & s2 & Hs & H1 & Ht & H2 & Hrest).
    destruct (IH _ _ Hrest) as (Hincl & Hdist & Horigin & Hmem).
    pose proof (set_add_incl _ _ _ H1) as I1.
    pose proof (set_add_incl _ _ _ H2) as I2.
    split; [|split; [|split]].
    + intros x Hx. auto.
    + intros Hd. apply Hdist.
      apply (set_add_distinct _ _ _ H2), (set_add_distinct _ _ _ H1), Hd.
    + intros x Hx. destruct (Horigin x Hx) as [Hx2 | (l & Hl & Hv)].
      * destruct (set_add_origin _ _ _ _ H2 Hx2) as [Hx1 | ->].
        -- destruct (set_add_origin _ _ _ _ H1 Hx1) as [Hx0 | ->];
             [now left|].
           right. exists link. split; [now left | now left].
        -- right. exists link. split; [now left | now right].
      * right. exists l. split; [now right | exact Hv].
    + intros v (l & [<- | Hl] & Hv).
      * destruct Hv as [Hv | Hv].
        -- rewrite Hs in Hv. injection Hv as <-.
           destruct (set_add_member _ _ _ H1) as (n & Hn & Hvn).
           exists n. split; [auto | exact Hvn].
        -- rewrite Ht in Hv. injection Hv as <-.
           destruct (set_add_member _ _ _ H2) as (n & Hn & Hvn).
           exists n. split; [auto | exact Hvn].
      * apply Hmem. now exists l.
Qed.

Lemma collect_node_names_total (links : list dict) :
  Forall hashable_endpoints links ->
  forall s, exists s', collect_node_names links s = inr s'.
Proof.
  induction 1 as [|link rest (source & target & Hs & Ht & Hhs & Hht) _ IH];
    intros s.
  - now exists s.
  - cbn [collect_node_names].
    apply py_item_str_dict in Hs, Ht. rewrite Hs, Ht.
    unfold set_add. rewrite Hhs, Hht. apply IH.
Qed.

Lemma pairwise_distinct_nil : pairwise_distinct [].
Proof. split; [constructor | intros a b []]. Qed.

(** The node names of a projection that was built. *)
Lemma build_projection_spec (links : list dict) (resp : pyval) :
  build_projection links = inr resp ->
  exists names,
    resp = projection names links
    /\ pairwise_distinct names
    /\ (forall v, In v names -> endpoint_of links v)
    /\ (forall v, endpoint_of links v -> exists n, In n names /\ py_eq v n = true).
Proof.
  unfold build_projection.
  destruct (collect_node_names links []) as [e|s] eqn:Hc; [discriminate|].
  intros H. injection H as <-.
  destruct (collect_node_names_spec _ _ _ Hc) as (_ & Hdist & Horigin & Hmem).
  destruct (Hdist pairwise_distinct_nil) as [Hnd Heq].
  pose proof (set_order_perm s) as Hp.
  exists (set_order s).
  split; [reflexivity | split; [split|split]].
  - apply (Permutation_NoDup (Permutation_sym Hp) Hnd).
  - intros a b Ha Hb. apply Heq; apply (Permutation_in _ Hp); assumption.
  - intros v Hv. apply (Permutation_in _ Hp) in Hv.
    destruct (Horigin v Hv) as [[] | Hv']. exact Hv'.
  - intros v Hv. destruct (Hmem v Hv) as (n & Hn & Hvn).
    exists n. split; [|exact Hvn].
    apply (Permutation_in _ (Permutation_sym Hp)). exact Hn.
Qed.




Lemma build_projection_returns (links : list dict) :
  Forall hashable_endpoints links ->
  exists names, build_projection links = inr (projection names links).
Proof.
  intros Hwf. unfold build_projection.
  destruct (collect_node_names_total links Hwf []) as [s Hs].
  rewrite Hs. now exists (set_order s).
Qed.

(** C8, as the program has it.  For every list of rows in which each
    row has a source and a target and both are hashable (strings,
    integers, booleans, [None]), the builder returns the projection of
    those rows and raises nothing. *)
Theorem build_projection_total_on_hashable :
  forall links : list dict,
    Forall hashable_endpoints links ->
    exists names, build_projection links = inr (projection names links).
Proof.
  intros links. apply build_projection_returns.
Qed.

Lemma projection_links (names : list pyval) (links : list dict) :
  py_item_str (projection names links) (u "links")
  = inr (PList (map PDict links)).
Proof. reflexivity. Qed.

(** C9. In the responses of [/api/graph] and of [/api/search] the
    [links] field is the list of rows the executor returned, row for
    row: same order, same length, same contents. *)
Theorem links_pass_through :
  forall rows : list dict,
    (forall limit st w resp st',
        session_run FULL_GRAPH_QUERY [(u "limit", PInt limit)] (world st)
        = (inr rows, w) ->
        get_full_graph limit st = (inr resp, st') ->
        py_item_str resp (u "links") = inr (PList (map PDict rows)))
    /\ (forall q st w resp st',
           session_run SEARCH_QUERY [(u "q", PStr q)] (world st)
           = (inr rows, w) ->
           search_subgraph q st = (inr resp, st') ->
           py_item_str resp (u "links") = inr (PList (map PDict rows))).
Proof.
  intros rows. split.
  - intros limit st w resp st' Hrun Hget.
    unfold get_full_graph, bind, run_cypher, lift in Hget.
    cbn [params_or_empty] in Hget. rewrite Hrun in Hget.
    destruct (build_projection rows) as [e|r] eqn:Hb; [discriminate|].
    injection Hget as <- _.
    destruct (build_projection_spec _ _ Hb) as (names & -> & _).
    apply projection_links.
  - intros q st w resp st' Hrun Hget.
    unfold search_subgraph, bind, run_cypher, lift in Hget.
    cbn [params_or_empty] in Hget. rewrite Hrun in Hget.
    destruct (build_projection rows) as [e|r] eqn:Hb; [discriminate|].
    injection Hget as <- _.
    destruct (build_projection_spec _ _ Hb) as (names & -> & _).
    apply projection_links.
Qed.

(** C10. [/api/graph] hands every integer [limit], negative ones too, to
    the store as the [$limit] parameter of the one query it runs, and
    checks nothing itself: when the store refuses, its exception leaves
    the handler uncaught; when the store returns rows with hashable
    endpoints, the handler returns. *)
Theorem get_full_graph_binds_limit_verbatim :
  forall (limit : Z) (st : state),
    log (snd (get_full_graph limit st))
    = log st ++ [EvRun FULL_GRAPH_QUERY [(u "limit", PInt limit)]]
    /\ (forall e w,
           session_run FULL_GRAPH_QUERY [(u "limit", PInt limit)] (world st)
           = (inl e, w) ->
           let st' :=
             {| world := w;
                log := log st
                       ++ [EvRun FULL_GRAPH_QUERY [(u "limit", PInt limit)]] |} in
           get_full_graph limit st = (inl e, st')
           /\ api_graph (Some limit) st = (ServerError e, st'))
    /\ (forall rows w,
           session_run FULL_GRAPH_QUERY [(u "limit", PInt limit)] (world st)
           = (inr rows, w) ->
           Forall hashable_endpoints rows ->
           exists resp, fst (get_full_graph limit st) = inr resp).
Proof.
  intros limit st. split; [|split].
  - unfold get_full_graph, bind, run_cypher, lift. cbn [params_or_empty].
    destruct (session_run _ _ _) as [[e|rows] w]; [reflexivity|].
    destruct (build_projection rows); reflexivity.
  - intros e w Hrun st'.
    assert (Hget : get_full_graph limit st = (inl e, st')).
    { unfold get_full_graph, bind, run_cypher, lift. cbn [params_or_empty].
      now rewrite Hrun. }
    split; [exact Hget|].
    unfold api_graph, serve. now rewrite Hget.
  - intros rows w Hrun Hwf.
    destruct (build_projection_returns rows Hwf) as [names Hb].
    exists (projection names rows).
    unfold get_full_graph, bind, run_cypher, lift. cbn [params_or_empty].
    now rewrite Hrun, Hb.
Qed.

(** C5. A request to [/api/search] without [q], or with an empty [q],
    is refused by the parameter validation with status 422; the handler
    is not entered, so the world and the log are as they were and no
    query has reached the store. *)
Theorem api_search_rejects_missing_or_empty :
  forall (q : option str) (st : state),
    q = None \/ q = Some [] ->
    api_search q st = (ValidationRejected (u "q"), st)
    /\ http_status (fst (api_search q st)) = 422%Z
    /\ log (snd (api_search q st)) = log st.
Proof.
  intros q st [-> | ->]; repeat split.
Qed.

(** ** The search query *)





Lemma cy_contains_true (name : option str) (q : str) :
  cy_contains (cy_toLower name) (cy_toLower (Some q)) = TriTrue ->
  exists s, name = Some s /\ ci_substring q s.
Proof.
  destruct name as [s|]; cbn [cy_toLower option_map cy_contains];
    [|discriminate].
  unfold ci_substring.
  destruct (contains (toLower s) (toLower q)) eqn:Hc; [|discriminate].
  intros _. exists s. split; [reflexivity | now apply contains_infix].
Qed.

Lemma where_search_holds (q : str) (b : binding) :
  tri_holds (where_search q b) = true ->
  (exists s, n_name b = Some s /\ ci_substring q s)
  \/ (exists t, m_name b = Some t /\ ci_substring q t).
Proof.
  unfold where_search.
  destruct (cy_contains (cy_toLower (n_name b)) (cy_toLower (Some q))) eqn:Hn;
    destruct (cy_contains (cy_toLower (m_name b)) (cy_toLower (Some q))) eqn:Hm;
    cbn [cy_or tri_holds]; try discriminate; intros _;
    first [ left; now apply cy_contains_true
          | right; now apply cy_contains_true ].
Qed.


(** ** Further properties of the clients *)

Lemma py_item_str_inr (v : pyval) (k : str) (x : pyval) :
  py_item_str v k = inr x ->
  exists d, v = PDict d /\ dict_lookup k d = Some x.
Proof.
  destruct v; cbn [py_item_str type_of]; try discriminate.
  destruct (dict_lookup k d) eqn:Hk; [|discriminate].
  intros H. injection H as <-. now exists d.
Qed.

Lemma seq_position_zero_empty : seq_position 0 0 = None.
Proof. reflexivity. Qed.

Lemma py_item_int_first_dict (v : pyval) (choice : dict) :
  py_item_int v 0 = inr (PDict choice) ->
  exists others, v = PList (PDict choice :: others).
Proof.
  destruct v; cbn [py_item_int type_of]; try discriminate.
  - destruct s as [|c s]; cbn [length].
    + rewrite seq_position_zero_empty. discriminate.
    + rewrite seq_position_first. cbn [nth_error]. discriminate.
  - destruct l as [|x l]; cbn [length].
    + rewrite seq_position_zero_empty. discriminate.
    + rewrite seq_position_first. cbn [nth_error].
      intros H. injection H as ->. now exists l.
Qed.

(** The navigation succeeds on exactly one shape of reply. *)
Lemma first_choice_content_inr (response v : pyval) :
  first_choice_content response = inr v <->
  exists d choice others message,
    response = PDict d
    /\ dict_lookup (u "choices") d = Some (PList (PDict choice :: others))
    /\ dict_lookup (u "message") choice = Some (PDict message)
    /\ dict_lookup (u "content") message = Some v.
Proof.
  split.
  - unfold first_choice_content.
    destruct (py_get response (u "choices")) as [e|choices] eqn:Hg;
      [discriminate|].
    destruct (py_item_int choices 0) as [e|choice] eqn:Hi; [discriminate|].
    destruct (py_item_str choice (u "message")) as [e|message] eqn:Hm;
      [discriminate|].
    intros Hc.
    apply py_item_str_inr in Hc as (md & -> & Hc).
    apply py_item_str_inr in Hm as (cd & -> & Hm).
    apply py_item_int_first_dict in Hi as (others & ->).
    destruct response; cbn [py_get type_of] in Hg; try discriminate.
    destruct (dict_lookup (u "choices") d) eqn:Hd.
    + injection Hg as ->. now exists d, cd, others, md.
    + discriminate.
  - intros (d & choice & others & message & -> & Hc & Hm & Hs).
    unfold first_choice_content. cbn [py_get]. rewrite Hc.
    rewrite py_item_int_first. cbn [py_item_str]. rewrite Hm.
    cbn [py_item_str]. now rewrite Hs.
Qed.

Lemma py_strip_inr (v : pyval) (s : str) :
  py_strip v = inr s <-> exists c, v = PStr c /\ s = strip c.
Proof.
  split.
  - destruct v; cbn [py_strip type_of]; try discriminate.
    intros H. injection H as <-. now exists s0.
  - intros (c & -> & ->). reflexivity.
Qed.

(** X1. The query-generation client returns a query in exactly one
    case: the request went through, the reply is a dictionary whose
    [choices] is a list starting with a dictionary, whose [message] is a
    dictionary, whose [content] is a string; the query is then that
    string stripped, with the fences removed.  In every other case it
    raises. *)
Theorem generate_cypher_query_returns_iff :
  forall (question : str) (st : state) (query : str),
    fst (generate_cypher_query question st) = inr query <->
    exists response w c,
      http_post_json DEEPSEEK_API_URL api_headers
        (generation_request question) (world st) = (inr response, w)
      /\ first_choice_says response c
      /\ query = replace fence [] (strip c).
Proof.
  intros question st query.
  unfold generate_cypher_query, bind, post_json, lift.
  destruct (http_post_json _ _ _ _) as [[e|response] w] eqn:Hpost.
  - split; [discriminate|]. intros (r & w' & c & H & _). discriminate.
  - destruct (first_choice_content response) as [e|v] eqn:Hv; cbn [fst].
    + split; [discriminate|].
      intros (r & w' & c & H & Hs & _). injection H as <- <-.
      rewrite (first_choice_says_content _ _ Hs) in Hv. discriminate.
    + unfold py_strip_replace. split.
      * destruct (py_strip v) as [e|s] eqn:Hstrip; [discriminate|].
        intros H. injection H as <-.
        apply py_strip_inr in Hstrip as (c & -> & ->).
        exists response, w, c. split; [reflexivity | split; [|reflexivity]].
        apply first_choice_content_inr in Hv. exact Hv.
      * intros (r & w' & c & H & Hs & ->). injection H as <- <-.
        rewrite (first_choice_says_content _ _ Hs) in Hv.
        injection Hv as <-. reflexivity.
Qed.

(** X2. Replies of the wrong shape, by the exception they end in: a
    reply that is a list has no [get]; a dictionary without [choices]
    gives [None], which cannot be indexed; an empty [choices] list has no
    first item; a [content] that is [None] cannot be stripped. *)
Theorem generate_cypher_query_malformed_replies :
  forall (question : str) (st : state) (response : pyval) (w : World),
    http_post_json DEEPSEEK_API_URL api_headers
      (generation_request question) (world st) = (inr response, w) ->
    ((exists l, response = PList l) ->
     fst (generate_cypher_query question st)
     = inl (AttributeError TList (u "get")))
    /\ ((exists d, response = PDict d /\ dict_lookup (u "choices") d = None) ->
        fst (generate_cypher_query question st)
        = inl (TypeError (NotSubscriptable TNoneType)))
    /\ ((exists d, response = PDict d
                   /\ dict_lookup (u "choices") d = Some (PList [])) ->
        fst (generate_cypher_query question st) = inl (IndexError TList))
    /\ ((exists d choice others message,
           response = PDict d
           /\ dict_lookup (u "choices") d = Some (PList (PDict choice :: others))
           /\ dict_lookup (u "message") choice = Some (PDict message)
           /\ dict_lookup (u "content") message = Some PNone) ->
        fst (generate_cypher_query question st)
        = inl (AttributeError TNoneType (u "strip"))).
Proof.
  intros question st response w Hpost.
  unfold generate_cypher_query, bind, post_json, lift. rewrite Hpost.
  split; [|split; [|split]].
  - intros (l & ->). reflexivity.
  - intros (d & -> & Hd). unfold first_choice_content. cbn [py_get].
    rewrite Hd. reflexivity.
  - intros (d & -> & Hd). unfold first_choice_content. cbn [py_get].
    rewrite Hd. reflexivity.
  - intros Hshape. apply first_choice_content_inr in Hshape.
    rewrite Hshape. reflexivity.
Qed.

Lemma replace_fence_same (s : str) :
  (forall a b, s <> a ++ fence ++ b) -> replace fence [] s = s.
Proof.
  induction s as [|t IH|c t Hsw IH] using fence_ind; intros Hfree.
  - reflexivity.
  - exfalso. now apply (Hfree [] t).
  - rewrite (replace_fence_keep _ _ Hsw). f_equal. apply IH.
    intros a b ->. now apply (Hfree (c :: a) b).
Qed.

Lemma replace_fence_length (s : str) :
  length (replace fence [] s) <= length s.
Proof.
  induction s as [|t IH|c t Hsw IH] using fence_ind.
  - reflexivity.
  - rewrite replace_fence_skip, length_app. lia.
  - rewrite (replace_fence_keep _ _ Hsw). cbn [length]. lia.
Qed.

Lemma strip_length (s : str) : length (strip s) <= length s.
Proof.
  destruct (strip_split s) as (pre & suf & Hs & _).
  rewrite Hs at 2. rewrite !length_app. lia.
Qed.

Lemma lstrip_same (s : str) :
  (forall c t, s = c :: t -> isspace c = false) -> lstrip s = s.
Proof.
  destruct s as [|c t]; [reflexivity|].
  intros H. cbn [lstrip]. now rewrite (H c t eq_refl).
Qed.

Lemma strip_idempotent (s : str) : strip (strip s) = strip s.
Proof.
  unfold strip at 1.
  rewrite (lstrip_same (strip s)) by (intros c t; apply strip_first).
  unfold rstrip. rewrite lstrip_same; [apply rev_involutive|].
  intros c t H. apply (strip_last s (rev t)).
  rewrite <- (rev_involutive (strip s)), H. reflexivity.
Qed.

(** X3. The cleaning never makes the text longer, and a reply without
    fences comes back stripped and otherwise untouched. *)
Theorem generate_cypher_query_without_fences :
  forall (question : str) (st : state) (response : pyval) (w : World) (c : str),
    http_post_json DEEPSEEK_API_URL api_headers
      (generation_request question) (world st) = (inr response, w) ->
    first_choice_says response c ->
    exists query,
      fst (generate_cypher_query question st) = inr query
      /\ length query <= length c
      /\ ((forall a b, c <> a ++ fence ++ b) -> query = strip c).
Proof.
  intros question st response w c Hpost Hshape.
  exists (replace fence [] (strip c)). split; [|split].
  - unfold generate_cypher_query, bind, post_json, lift.
    rewrite Hpost, (first_choice_says_content _ _ Hshape). reflexivity.
  - pose proof (replace_fence_length (strip c)).
    pose proof (strip_length c). lia.
  - intros Hfree. apply replace_fence_same.
    destruct (strip_split c) as (pre & suf & Hc & _).
    intros a b Hs. apply (Hfree (pre ++ a) (b ++ suf)).
    rewrite Hc at 1. rewrite Hs, <- !app_assoc. reflexivity.
Qed.

Lemma get_answer_from_kg_inr (rows : list dict) (q answer : str)
    (st st' : state) :
  get_answer_from_kg rows q st = (inr answer, st') ->
  exists dumped response c,
    json_dumps rows = inr dumped
    /\ http_post_json DEEPSEEK_API_URL api_headers (answer_request dumped q)
         (world st) = (inr response, world st')
    /\ first_choice_says response c
    /\ answer = strip c.
Proof.
  unfold get_answer_from_kg, bind, post_json, lift.
  destruct (json_dumps rows) as [e|dumped]; [discriminate|].
  destruct (http_post_json _ _ _ _) as [[e|response] w] eqn:Hpost;
    [discriminate|].
  destruct (first_choice_content response) as [e|v] eqn:Hv; [discriminate|].
  destruct (py_strip v) as [e|a] eqn:Ha; [discriminate|].
  intros H. injection H as <- <-.
  apply py_strip_inr in Ha as (c & -> & ->).
  apply first_choice_content_inr in Hv.
  exists dumped, response, c. cbn [world].
  split; [reflexivity | split; [exact Hpost | split; [exact Hv | reflexivity]]].
Qed.

(** X4. An answer returned by the synthesis client is trimmed: it
    neither starts nor ends with a whitespace character, and stripping
    it again changes nothing. *)
Theorem get_answer_from_kg_is_trimmed :
  forall (rows : list dict) (q answer : str) (st st' : state),
    get_answer_from_kg rows q st = (inr answer, st') ->
    strip answer = answer
    /\ (forall c t, answer = c :: t -> isspace c = false)
    /\ (forall t c, answer = t ++ [c] -> isspace c = false).
Proof.
  intros rows q answer st st' H.
  apply get_answer_from_kg_inr in H as (_ & _ & c & _ & _ & _ & ->).
  split; [apply strip_idempotent | split].
  - intros x t. apply strip_first.
  - intros t x. apply strip_last.
Qed.

(** What the endpoint does, by the first step that fails. *)
Lemma ask_question_cases (q : str) (st : state) :
  (exists query st1 rows st2 answer st3,
      generate_cypher_query q st = (inr query, st1)
      /\ run_cypher query None st1 = (inr rows, st2)
      /\ get_answer_from_kg rows q st2 = (inr answer, st3)
      /\ ask_question q st
         = (match json_response (PDict [(u "answer", PStr answer)]) 200 with
            | inr r => inr r
            | inl e =>
                json_response
                  (PDict [(u "answer", PStr (u "Error: " ++ exn_str e))]) 500
            end, st3))
  \/ (exists e st',
         (generate_cypher_query q st = (inl e, st')
          \/ (exists query st1,
                generate_cypher_query q st = (inr query, st1)
                /\ run_cypher query None st1 = (inl e, st'))
          \/ (exists query st1 rows st2,
                generate_cypher_query q st = (inr query, st1)
                /\ run_cypher query None st1 = (inr rows, st2)
                /\ get_answer_from_kg rows q st2 = (inl e, st')))
         /\ ask_question q st
            = (json_response
                 (PDict [(u "answer", PStr (u "Error: " ++ exn_str e))]) 500,
               st')).
Proof.
  pose (r1 := generate_cypher_query q st).
  assert (Hg : generate_cypher_query q st = r1) by reflexivity.
  clearbody r1. destruct r1 as [[e|query] st1].
  - right. exists e, st1. split; [now left|].
    apply ask_question_on_failure. now left.
  - pose (r2 := run_cypher query None st1).
    assert (Hr : run_cypher query None st1 = r2) by reflexivity.
    clearbody r2. destruct r2 as [[e|rows] st2].
    + right. exists e, st2.
      assert (H : generate_cypher_query q st = (inl e, st2)
                  \/ (exists query st1,
                        generate_cypher_query q st = (inr query, st1)
                        /\ run_cypher query None st1 = (inl e, st2))
                  \/ (exists query st1 rows st3,
                        generate_cypher_query q st = (inr query, st1)
                        /\ run_cypher query None st1 = (inr rows, st3)
                        /\ get_answer_from_kg rows q st3 = (inl e, st2)))
        by (right; left; now exists query, st1).
      split; [exact H | now apply ask_question_on_failure].
    + pose (r3 := get_answer_from_kg rows q st2).
      assert (Ha : get_answer_from_kg rows q st2 = r3) by reflexivity.
      clearbody r3. destruct r3 as [[e|answer] st3].
      * right. exists e, st3.
        assert (H : generate_cypher_query q st = (inl e, st3)
                    \/ (exists query st1,
                          generate_cypher_query q st = (inr query, st1)
                          /\ run_cypher query None st1 = (inl e, st3))
                    \/ (exists query st1 rows st2,
                          generate_cypher_query q st = (inr query, st1)
                          /\ run_cypher query None st1 = (inr rows, st2)
                          /\ get_answer_from_kg rows q st2 = (inl e, st3)))
          by (right; right; now exists query, st1, rows, st2).
        split; [exact H | now apply ask_question_on_failure].
      * left. exists query, st1, rows, st2, answer, st3.
        split; [exact Hg | split; [exact Hr | split; [exact Ha|]]].
        now apply (ask_question_on_success q query answer rows st st1 st2 st3).
Qed.

(** X5. What a request to the question-answering route can end in, for
    every question, the empty one too: a response with status 200 or
    500 whose body is a dictionary with a string under [answer]; or,
    only when the text ["Error: " + str(e)] of the error response
    cannot be encoded as UTF-8, the encoding error raised in the
    [except] clause, which leaves the handler. *)
Theorem api_ask_question_outcomes :
  forall (q : str) (st : state),
    (exists status text,
        fst (api_ask_question (Some q) st)
        = Responded status (PDict [(u "answer", PStr text)])
        /\ (status = 200 \/ status = 500)%Z)
    \/ (exists e,
           fst (api_ask_question (Some q) st)
           = ServerError
               (UnicodeEncodeError
                  (PDict [(u "answer", PStr (u "Error: " ++ exn_str e))]))
           /\ utf8_encodable (exn_str e) = false).
Proof.
  intros q st. unfold api_ask_question, serve.
  assert (Herr : forall e st',
             ask_question q st
             = (json_response
                  (PDict [(u "answer", PStr (u "Error: " ++ exn_str e))]) 500,
                st') ->
             (exists status text,
                 fst (let (r, st'') := ask_question q st in
                      match r with
                      | inr a => (Responded (status_code a) (resp_content a), st'')
                      | inl e0 => (ServerError e0, st'')
                      end)
                 = Responded status (PDict [(u "answer", PStr text)])
                 /\ (status = 200 \/ status = 500)%Z)
             \/ (exists e1,
                    fst (let (r, st'') := ask_question q st in
                         match r with
                         | inr a =>
                             (Responded (status_code a) (resp_content a), st'')
                         | inl e0 => (ServerError e0, st'')
                         end)
                    = ServerError
                        (UnicodeEncodeError
                           (PDict [(u "answer",
                                    PStr (u "Error: " ++ exn_str e1))]))
                    /\ utf8_encodable (exn_str e1) = false)).
  { intros e st' ->. rewrite json_response_answer, utf8_encodable_error.
    destruct (utf8_encodable (exn_str e)) eqn:Henc; cbn [fst].
    - left. exists 500%Z, (u "Error: " ++ exn_str e).
      split; [reflexivity | now right].
    - right. exists e. split; [reflexivity | exact Henc]. }
  destruct (ask_question_cases q st)
    as [(query & st1 & rows & st2 & answer & st3 & _ & _ & _ & H)
       | (e & st' & _ & H)].
  - rewrite json_response_answer in H.
    destruct (utf8_encodable answer).
    + rewrite H. cbn [fst status_code resp_content].
      left. exists 200%Z, answer. split; [reflexivity | now left].
    + exact (Herr _ _ H).
  - exact (Herr _ _ H).
Qed.

(** X6. Status 200 is given only when the three steps succeeded, and the
    answer is then the one the synthesis client returned for the rows
    the store gave for the generated query. *)
Theorem ask_question_200_only_on_success :
  forall (q : str) (st st' : state) (r : JSONResponse),
    ask_question q st = (inr r, st') ->
    status_code r = 200%Z ->
    exists query st1 rows st2 answer,
      generate_cypher_query q st = (inr query, st1)
      /\ run_cypher query None st1 = (inr rows, st2)
      /\ get_answer_from_kg rows q st2 = (inr answer, st')
      /\ resp_content r = PDict [(u "answer", PStr answer)].
Proof.
  intros q st st' r Hask Hstatus.
  assert (Herr : forall e st'',
             ask_question q st
             = (json_response
                  (PDict [(u "answer", PStr (u "Error: " ++ exn_str e))]) 500,
                st'') -> False).
  { intros e st'' H. rewrite H, json_response_answer in Hask.
    destruct (utf8_encodable (u "Error: " ++ exn_str e)); [|discriminate].
    injection Hask as <- _. discriminate. }
  destruct (ask_question_cases q st)
    as [(query & st1 & rows & st2 & answer & st3 & Hg & Hr & Ha & H)
       | (e & st'' & _ & H)]; [|destruct (Herr _ _ H)].
  rewrite json_response_answer in H.
  destruct (utf8_encodable answer); [|destruct (Herr _ _ H)].
  rewrite H in Hask. injection Hask as <- <-.
  now exists query, st1, rows, st2, answer.
Qed.

(** X7. When the rows cannot be serialised, the synthesis request is not
    sent: the endpoint has made the generation request and run the query,
    nothing more.  It answers 500 with the serialiser's error when that
    text can be encoded as UTF-8; when it cannot, the encoding error
    raised in the [except] clause leaves the handler. *)
Theorem ask_question_unserialisable_rows :
  forall (q : str) (st st1 : state) (query : str) (rows : list dict)
         (w2 : World) (e : exn),
    generate_cypher_query q st = (inr query, st1) ->
    session_run query [] (world st1) = (inr rows, w2) ->
    json_dumps rows = inl e ->
    snd (ask_question q st)
    = {| world := w2;
         log := log st
                ++ [EvPost DEEPSEEK_API_URL api_headers (generation_request q);
                    EvRun query []] |}
    /\ (utf8_encodable (exn_str e) = true ->
        fst (ask_question q st)
        = inr {| resp_content :=
                   PDict [(u "answer", PStr (u "Error: " ++ exn_str e))];
                 status_code := 500 |})
    /\ (utf8_encodable (exn_str e) = false ->
        fst (ask_question q st)
        = inl (UnicodeEncodeError
                 (PDict [(u "answer", PStr (u "Error: " ++ exn_str e))]))).
Proof.
  intros q st st1 query rows w2 e Hg Hrun Hd.
  pose proof (generate_cypher_query_log q st) as Lg.
  rewrite Hg in Lg. cbn [snd] in Lg.
  assert (Hask : ask_question q st
                 = (json_response
                      (PDict [(u "answer", PStr (u "Error: " ++ exn_str e))])
                      500,
                    {| world := w2;
                       log := log st
                              ++ [EvPost DEEPSEEK_API_URL api_headers
                                    (generation_request q);
                                  EvRun query []] |})).
  { apply ask_question_on_failure. right; right.
    exists query, st1, rows,
      {| world := w2; log := log st1 ++ [EvRun query []] |}.
    split; [exact Hg | split].
    - unfold run_cypher. cbn [params_or_empty]. now rewrite Hrun.
    - unfold get_answer_from_kg, bind, lift. rewrite Hd.
      rewrite Lg, <- app_assoc. reflexivity. }
  rewrite json_response_answer, utf8_encodable_error in Hask.
  split; [now rewrite Hask | split]; intros Henc; rewrite Henc in Hask;
    now rewrite Hask.
Qed.

(** X8. The generated text is run as it is: whatever string the service
    puts in its reply, the text left after stripping and fence removal
    (the empty text too) is the query sent to the store, with no
    parameters, right after the generation request. *)
Theorem ask_question_runs_generated_text :
  forall (q : str) (st : state) (response : pyval) (w : World) (c : str),
    http_post_json DEEPSEEK_API_URL api_headers
      (generation_request q) (world st) = (inr response, w) ->
    first_choice_says response c ->
    exists evs,
      log (snd (ask_question q st))
      = log st
        ++ EvPost DEEPSEEK_API_URL api_headers (generation_request q)
        :: EvRun (replace fence [] (strip c)) [] :: evs.
Proof.
  intros q st response w c Hpost Hshape.
  assert (Hg : exists st1, generate_cypher_query q st
                           = (inr (replace fence [] (strip c)), st1)).
  { unfold generate_cypher_query, bind, post_json, lift.
    rewrite Hpost, (first_choice_says_content _ _ Hshape). eexists. reflexivity. }
  destruct Hg as [st1 Hg].
  pose proof (generate_cypher_query_log q st) as Lg.
  rewrite Hg in Lg. cbn [snd] in Lg.
  rewrite ask_question_state, Hg.
  pose proof (run_cypher_log (replace fence [] (strip c)) None st1) as Lr.
  destruct (run_cypher (replace fence [] (strip c)) None st1)
    as [[e|rows] st2]; cbn [snd params_or_empty] in *;
    rewrite Lg, <- app_assoc in Lr; cbn [app] in Lr.
  - exists []. exact Lr.
  - pose proof (get_answer_from_kg_log rows q st2) as La.
    destruct (json_dumps rows) as [e|dumped];
      rewrite La, Lr; try rewrite <- app_assoc;
      eexists; cbn [app]; reflexivity.
Qed.

(** ** Further properties of the graph routes *)

Lemma set_add_inl (v : pyval) (s : pyset) (e : exn) :
  set_add v s = inl e ->
  e = TypeError (Unhashable TList) \/ e = TypeError (Unhashable TDict).
Proof.
  unfold set_add. destruct v; cbn [hashable type_of]; try discriminate;
    intros H; injection H as <-; [now left | now right].
Qed.

Lemma collect_node_names_inr (links : list dict) :
  forall s s',
    collect_node_names links s = inr s' -> Forall hashable_endpoints links.
Proof.
  induction links as [|link rest IH]; intros s s' H; [constructor|].
  apply collect_node_names_cons in H
    as (source & target & s1 & s2 & Hs & H1 & Ht & H2 & Hrest).
  constructor; [|exact (IH _ _ Hrest)].
  exists source, target.
  apply set_add_inr in H1 as [Hh1 _]. apply set_add_inr in H2 as [Hh2 _].
  repeat split; assumption.
Qed.

Lemma collect_node_names_inl (links : list dict) :
  forall s e,
    collect_node_names links s = inl e ->
    e = KeyError (PStr (u "source")) \/ e = KeyError (PStr (u "target"))
    \/ e = TypeError (Unhashable TList) \/ e = TypeError (Unhashable TDict).
Proof.
  induction links as [|link rest IH]; intros s e; cbn [collect_node_names];
    [discriminate|].
  cbn [py_item_str].
  destruct (dict_lookup (u "source") link) as [source|];
    [|intros H; injection H as <-; now left].
  destruct (set_add source s) as [e1|s1] eqn:H1.
  { intros H. injection H as <-. right; right. exact (set_add_inl _ _ _ H1). }
  destruct (dict_lookup (u "target") link) as [target|];
    [|intros H; injection H as <-; right; now left].
  destruct (set_add target s1) as [e2|s2] eqn:H2.
  { intros H. injection H as <-. right; right. exact (set_add_inl _ _ _ H2). }
  apply IH.
Qed.

(** X9. The builder returns exactly when every row has a source and a
    target and both are hashable; one row without them makes it raise,
    wherever the row stands. *)
Theorem build_projection_returns_iff :
  forall links : list dict,
    (exists resp, build_projection links = inr resp)
    <-> Forall hashable_endpoints links.
Proof.
  intros links. split.
  - intros [resp H]. unfold build_projection in H.
    destruct (collect_node_names links []) as [e|s] eqn:Hc; [discriminate|].
    exact (collect_node_names_inr _ _ _ Hc).
  - intros Hwf. destruct (build_projection_returns links Hwf) as [names H].
    now exists (projection names links).
Qed.

(** X10. The builder raises nothing but [KeyError] for a missing
    [source] or [target] and [TypeError] for a name that is a list or a
    dictionary. *)
Theorem build_projection_exceptions :
  forall (links : list dict) (e : exn),
    build_projection links = inl e ->
    e = KeyError (PStr (u "source")) \/ e = KeyError (PStr (u "target"))
    \/ e = TypeError (Unhashable TList) \/ e = TypeError (Unhashable TDict).
Proof.
  intros links e. unfold build_projection.
  destruct (collect_node_names links []) as [e'|s] eqn:Hc; [|discriminate].
  intros H. injection H as <-. exact (collect_node_names_inl _ _ _ Hc).
Qed.

Lemma set_add_length (v : pyval) (s s' : pyset) :
  set_add v s = inr s' -> length s' <= S (length s).
Proof.
  intros H. apply set_add_inr in H as [_ ->].
  destruct (existsb (py_eq v) s); [lia|].
  rewrite length_app. cbn [length]. lia.
Qed.

Lemma collect_node_names_length (links : list dict) :
  forall s s',
    collect_node_names links s = inr s' ->
    length s' <= length s + 2 * length links.
Proof.
  induction links as [|link rest IH]; intros s s' H.
  - cbn [collect_node_names] in H. injection H as <-. lia.
  - apply collect_node_names_cons in H
      as (source & target & s1 & s2 & _ & H1 & _ & H2 & Hrest).
    apply set_add_length in H1, H2. apply IH in Hrest.
    cbn [length]. lia.
Qed.

(** X11. A projection has at most two nodes per link; with no link it
    has no node. *)
Theorem build_projection_node_count :
  forall (links : list dict) (resp : pyval),
    build_projection links = inr resp ->
    exists names,
      resp = projection names links
      /\ length names <= 2 * length links
      /\ (links = [] -> names = []).
Proof.
  intros links resp. unfold build_projection.
  destruct (collect_node_names links []) as [e|s] eqn:Hc; [discriminate|].
  intros H. injection H as <-.
  pose proof (collect_node_names_length _ _ _ Hc) as Hlen.
  pose proof (Permutation_length (set_order_perm s)) as Hp.
  cbn [length] in Hlen.
  exists (set_order s). split; [reflexivity | split; [lia|]].
  intros ->. cbn [length] in Hlen.
  destruct (set_order s); [reflexivity | cbn [length] in Hp; lia].
Qed.

Lemma collect_node_names_app (a b : list dict) :
  forall s,
    collect_node_names (a ++ b) s
    = match collect_node_names a s with
      | inr s1 => collect_node_names b s1
      | inl e => inl e
      end.
Proof.
  induction a as [|link rest IH]; intros s; [reflexivity|].
  cbn [app collect_node_names].
  destruct (py_item_str (PDict link) (u "source")); [reflexivity|].
  destruct (set_add p s); [reflexivity|].
  destruct (py_item_str (PDict link) (u "target")); [reflexivity|].
  destruct (set_add p1 p0); [reflexivity|].
  apply IH.
Qed.

Lemma set_add_present (v : pyval) (s : pyset) :
  hashable v = true ->
  (exists n, In n s /\ py_eq v n = true) ->
  set_add v s = inr s.
Proof.
  intros Hh Hn. unfold set_add. rewrite Hh.
  apply existsb_exists in Hn. now rewrite Hn.
Qed.

(** X12. A link that repeats an earlier one is kept in [links] and adds
    no node: appending a row that is already there leaves the node list
    as it was. *)
Theorem build_projection_repeated_link :
  forall (links : list dict) (link : dict) (resp : pyval),
    build_projection links = inr resp ->
    In link links ->
    exists names,
      resp = projection names links
      /\ build_projection (links ++ [link])
         = inr (projection names (links ++ [link])).
Proof.
  intros links link resp. unfold build_projection.
  destruct (collect_node_names links []) as [e|s] eqn:Hc; [discriminate|].
  intros H Hin. injection H as <-.
  exists (set_order s). split; [reflexivity|].
  rewrite collect_node_names_app, Hc.
  pose proof (collect_node_names_inr _ _ _ Hc) as Hwf.
  rewrite Forall_forall in Hwf.
  destruct (Hwf link Hin) as (source & target & Hs & Ht & Hhs & Hht).
  destruct (collect_node_names_spec _ _ _ Hc) as (_ & _ & _ & Hmem).
  cbn [collect_node_names].
  apply py_item_str_dict in Hs as Hs', Ht as Ht'. rewrite Hs', Ht'.
  rewrite (set_add_present source s Hhs)
    by (apply Hmem; exists link; auto).
  rewrite (set_add_present target s Hht)
    by (apply Hmem; exists link; auto).
  reflexivity.
Qed.

(** X13. The search route sends one fixed query text for every [q];
    [q] travels only as the [$q] parameter and is never written into
    the text.  When the store refuses, its exception leaves the handler
    uncaught. *)
Theorem search_subgraph_binds_q :
  forall (q : str) (st : state),
    log (snd (search_subgraph q st))
    = log st ++ [EvRun SEARCH_QUERY [(u "q", PStr q)]]
    /\ (forall e w,
           session_run SEARCH_QUERY [(u "q", PStr q)] (world st) = (inl e, w) ->
           q <> [] ->
           fst (api_search (Some q) st) = ServerError e).
Proof.
  intros q st. split.
  - unfold search_subgraph, bind, run_cypher, lift. cbn [params_or_empty].
    destruct (session_run _ _ _) as [[e|rows] w]; [reflexivity|].
    destruct (build_projection rows); reflexivity.
  - intros e w Hrun Hq. destruct q as [|c t]; [congruence|].
    unfold api_search. cbn [length Nat.ltb Nat.leb].
    unfold serve, search_subgraph, bind, run_cypher, lift.
    cbn [params_or_empty]. now rewrite Hrun.
Qed.

(** X14. The search route refuses a request exactly when [q] is missing
    or empty; every other request enters the handler and reaches the
    store. *)
Theorem api_search_rejects_iff :
  forall (q : option str) (st : state),
    ((exists p, fst (api_search q st) = ValidationRejected p)
     <-> q = None \/ q = Some [])
    /\ (forall s, q = Some s -> s <> [] ->
                  log (snd (api_search q st))
                  = log st ++ [EvRun SEARCH_QUERY [(u "q", PStr s)]]).
Proof.
  intros q st.
  assert (Hlog : forall s, s <> [] ->
                   log (snd (api_search (Some s) st))
                   = log st ++ [EvRun SEARCH_QUERY [(u "q", PStr s)]]).
  { intros s Hs. destruct s as [|c t]; [congruence|].
    unfold api_search. cbn [length Nat.ltb Nat.leb].
    unfold serve, search_subgraph, bind, run_cypher, lift.
    cbn [params_or_empty].
    destruct (session_run _ _ _) as [[e|rows] w]; [reflexivity|].
    destruct (build_projection rows); reflexivity. }
  split.
  - split.
    + intros [p Hp]. destruct q as [[|c t]|]; [now right | | now left].
      exfalso. unfold api_search in Hp. cbn [length Nat.ltb Nat.leb] in Hp.
      unfold serve in Hp.
      destruct (search_subgraph (c :: t) st) as [[e|r] st']; [discriminate|].
      cbn [fst] in Hp. unfold respond_json in Hp.
      destruct (json_response r 200); discriminate.
    + intros [-> | ->]; now exists (u "q").
  - intros s -> Hs. now apply Hlog.
Qed.

Lemma cy_contains_ci (name : option str) (q s : str) :
  name = Some s -> ci_substring q s ->
  cy_contains (cy_toLower name) (cy_toLower (Some q)) = TriTrue.
Proof.
  intros -> Hc. cbn [cy_toLower option_map cy_contains].
  apply contains_infix in Hc. now rewrite Hc.
Qed.

Lemma cy_or_true_l (t : tri) : cy_or TriTrue t = TriTrue.
Proof. now destruct t. Qed.

Lemma cy_or_true_r (t : tri) : cy_or t TriTrue = TriTrue.
Proof. now destruct t. Qed.

(** X15. Below the cap the search is exact: when the store holds at
    most 100 matches, the links returned are the rows of exactly those
    matches one of whose names contains [q], case aside; a match whose
    other node has no name is returned all the same. *)
Theorem cypher_search_exact_below_cap :
  forall (g : list binding) (q : str) (link : dict),
    length g <= 100 ->
    (In link (cypher_search g q)
     <-> exists b,
           In b g /\ link = link_row b
           /\ ((exists s, n_name b = Some s /\ ci_substring q s)
               \/ (exists t, m_name b = Some t /\ ci_substring q t))).
Proof.
  intros g q link Hcap.
  unfold cypher_search, cypher_limit.
  rewrite firstn_all2.
  - rewrite in_map_iff. split.
    + intros (b & <- & Hb). apply filter_In in Hb as [Hin Hw].
      exists b. split; [exact Hin | split; [reflexivity|]].
      now apply where_search_holds.
    + intros (b & Hin & -> & Hmatch). exists b. split; [reflexivity|].
      apply filter_In. split; [exact Hin|].
      unfold where_search.
      destruct Hmatch as [(s & Hs & Hc) | (t & Ht & Hc)].
      * rewrite (cy_contains_ci _ _ _ Hs Hc), cy_or_true_l. reflexivity.
      * rewrite (cy_contains_ci _ _ _ Ht Hc), cy_or_true_r. reflexivity.
  - rewrite length_map.
    pose proof (filter_length_le (fun b => tri_holds (where_search q b)) g).
    change (Z.to_nat 100) with 100. lia.
Qed.

(** X17. The synthesis client returns an answer in exactly one case:
    the rows were serialised, the request built from them went through,
    and the reply has a string as the content of its first choice; the
    answer is that string stripped (empty when the service wrote
    whitespace only).  In every other case it raises. *)
Theorem get_answer_from_kg_returns_iff :
  forall (rows : list dict) (q answer : str) (st : state),
    fst (get_answer_from_kg rows q st) = inr answer <->
    exists dumped response w c,
      json_dumps rows = inr dumped
      /\ http_post_json DEEPSEEK_API_URL api_headers (answer_request dumped q)
           (world st) = (inr response, w)
      /\ first_choice_says response c
      /\ answer = strip c.
Proof.
  intros rows q answer st. split.
  - destruct (get_answer_from_kg rows q st) as [r st'] eqn:H. cbn [fst].
    intros ->.
    apply get_answer_from_kg_inr in H as (dumped & response & c & H).
    now exists dumped, response, (world st'), c.
  - intros (dumped & response & w & c & Hd & Hpost & Hshape & ->).
    unfold get_answer_from_kg, bind, post_json, lift.
    rewrite Hd, Hpost, (first_choice_says_content _ _ Hshape). reflexivity.
Qed.

End Backend.

(** ** The order of the nodes *)

(** X16. The order in which the set yields its members decides nothing
    but the order of the nodes: under any two orders the builder returns
    for the same rows, with the same links and with node lists that are
    rearrangements of one another. *)
Theorem build_projection_any_order :
  forall (order1 order2 : pyset -> list pyval),
    (forall s, Permutation (order1 s) s) ->
    (forall s, Permutation (order2 s) s) ->
    forall (links : list dict) (resp1 : pyval),
      build_projection order1 links = inr resp1 ->
      exists names1 names2,
        resp1 = projection names1 links
        /\ build_projection order2 links = inr (projection names2 links)
        /\ Permutation names1 names2.
Proof.
  intros order1 order2 H1 H2 links resp1. unfold build_projection.
  destruct (collect_node_names links []) as [e|s]; [discriminate|].
  intros H. injection H as <-.
  exists (order1 s), (order2 s).
  split; [reflexivity | split; [reflexivity|]].
  apply (Permutation_trans (H1 s)), Permutation_sym, H2.
Qed.

(** ** The program on concrete requests *)

Lemma chat_reply_says (text : str) : first_choice_says (chat_reply text) text.
Proof.
  unfold first_choice_says, chat_reply.
  do 4 eexists. repeat split; reflexivity.
Qed.

Lemma generate_cypher_query_strips_content_witness :
  fst (generate_cypher_query sample_url sample_key scripted_world scripted_post
         sample_question
         {| world := connected_world (inr []); log := [] |})
  = inr sample_query.
Proof.
  destruct (generate_cypher_query_strips_content
              sample_url sample_key scripted_world scripted_post
              sample_question
              {| world := connected_world (inr []); log := [] |}
              fenced_reply
              {| replies := [inr answer_reply]; store_reply := inr [] |}
              (u " ```MATCH (n:Node)-[r]-(m:Node) RETURN n, r, m``` ")
              eq_refl (chat_reply_says _))
    as (query & _ & _ & _ & _ & Hq & Hr & _).
  rewrite Hq, Hr. reflexivity.
Defined.

Lemma ask_question_three_steps_witness :
  fst (api_ask_question sample_url sample_key scripted_world scripted_post
         scripted_run scripted_dumps scripted_exn_str (Some sample_question)
         {| world := connected_world (inr sample_rows); log := [] |})
  = Responded 200 (PDict [(u "answer", PStr (u "Silver raises the activity."))])
  /\ log scripted_world
       (snd (ask_question sample_url sample_key scripted_world scripted_post
               scripted_run scripted_dumps scripted_exn_str sample_question
               {| world := connected_world (inr sample_rows); log := [] |}))
     = [ EvPost sample_url (api_headers sample_key)
           (generation_request sample_question);
         EvRun sample_query [];
         EvPost sample_url (api_headers sample_key)
           (answer_request (u "[...]") sample_question) ].
Proof.
  edestruct (proj2 (ask_question_three_steps
                      sample_url sample_key scripted_world scripted_post
                      scripted_run scripted_dumps scripted_exn_str
                      sample_question
                      {| world := connected_world (inr sample_rows); log := [] |}))
    as ((dumped & Hd & Hlog) & Hst & Hok & _);
    [reflexivity | reflexivity | reflexivity |].
  destruct (Hok eq_refl) as [Hask Hapi].
  rewrite Hapi, Hask. cbn [fst snd].
  split; [reflexivity|].
  rewrite Hlog. injection Hd as <-. reflexivity.
Defined.

(** C1, as stated, fails: the service answers with a lone surrogate, the
    three steps succeed, and the endpoint answers 500, because building
    the response [{"answer": answer}] raises inside the [try]. *)
Lemma ask_question_surrogate_answer_is_500 :
  exists query st1 rows st2 st3,
    generate_cypher_query sample_url sample_key scripted_world scripted_post
      sample_question
      {| world := surrogate_service (inr sample_rows); log := [] |}
    = (inr query, st1)
    /\ run_cypher scripted_world scripted_run query None st1 = (inr rows, st2)
    /\ get_answer_from_kg sample_url sample_key scripted_world scripted_post
         scripted_dumps rows sample_question st2
       = (inr [55296%N], st3)
    /\ fst (api_ask_question sample_url sample_key scripted_world
              scripted_post scripted_run scripted_dumps scripted_exn_str
              (Some sample_question)
              {| world := surrogate_service (inr sample_rows); log := [] |})
       = Responded 500 (PDict [(u "answer", PStr (u "Error: error"))])
    /\ fst (api_ask_question sample_url sample_key scripted_world
              scripted_post scripted_run scripted_dumps scripted_exn_str
              (Some sample_question)
              {| world := surrogate_service (inr sample_rows); log := [] |})
       <> Responded 200 (PDict [(u "answer", PStr [55296%N])]).
Proof.
  do 5 eexists.
  split; [reflexivity | split; [reflexivity | split; [reflexivity | split]]].
  - reflexivity.
  - discriminate.
Qed.



Lemma ask_question_empty_result_witness :
  api_ask_question sample_url sample_key scripted_world scripted_post
    scripted_run scripted_dumps scripted_exn_str (Some sample_question)
    {| world := connected_world (inr []); log := [] |}
  = (Responded 200 (PDict [(u "answer", PStr (u "Silver raises the activity."))]),
     {| world := {| replies := []; store_reply := inr [] |};
        log := [ EvPost sample_url (api_headers sample_key)
                   (generation_request sample_question);
                 EvRun sample_query [];
                 EvPost sample_url (api_headers sample_key)
                   (answer_request (u "[]") sample_question) ] |}).
Proof.
  edestruct (ask_question_empty_result
               sample_url sample_key scripted_world scripted_post
               scripted_run scripted_dumps scripted_exn_str sample_question
               {| world := connected_world (inr []); log := [] |})
    as (_ & Hok & _);
    [reflexivity | reflexivity | reflexivity | reflexivity
    | exact (chat_reply_says _) |].
  destruct (Hok eq_refl) as [_ Hapi].
  rewrite Hapi. reflexivity.
Defined.

(** C6, as stated, fails: with an empty result set and a service that
    answers with a lone surrogate, the synthesis request is sent and
    succeeds, and the endpoint answers 500. *)
Lemma ask_question_empty_result_surrogate_is_500 :
  fst (get_answer_from_kg sample_url sample_key scripted_world scripted_post
         scripted_dumps [] sample_question
         {| world := {| replies := [inr surrogate_reply]; store_reply := inr [] |};
            log := [] |})
  = inr [55296%N]
  /\ api_ask_question sample_url sample_key scripted_world scripted_post
       scripted_run scripted_dumps scripted_exn_str (Some sample_question)
       {| world := surrogate_service (inr []); log := [] |}
     = (Responded 500 (PDict [(u "answer", PStr (u "Error: error"))]),
        {| world := {| replies := []; store_reply := inr [] |};
           log := [ EvPost sample_url (api_headers sample_key)
                      (generation_request sample_question);
                    EvRun sample_query [];
                    EvPost sample_url (api_headers sample_key)
                      (answer_request (u "[]") sample_question) ] |}).
Proof. split; reflexivity. Qed.


Lemma sample_rows_hashable : Forall hashable_endpoints sample_rows.
Proof.
  repeat constructor; (do 2 eexists; repeat split; reflexivity).
Qed.

Lemma build_projection_total_on_hashable_witness :
  exists names,
    build_projection (fun s => s) sample_rows
    = inr (projection names sample_rows).
Proof.
  exact (build_projection_total_on_hashable (fun s => s) sample_rows
           sample_rows_hashable).
Defined.

(** C8, as stated, fails: a row whose source name is a list makes the
    builder raise [TypeError], and [/api/graph] ends in a server error. *)
Lemma build_projection_raises_on_list_name :
  build_projection (fun s => s) [list_named_row]
  = inl (TypeError (Unhashable TList))
  /\ fst (api_graph scripted_world scripted_run (fun s => s) None
            {| world := connected_world (inr [list_named_row]); log := [] |})
     = ServerError (TypeError (Unhashable TList))
  /\ ~ (forall links : list dict,
          exists resp, build_projection (fun s => s) links = inr resp).
Proof.
  split; [reflexivity | split; [reflexivity|]].
  intros H. destruct (H [list_named_row]) as [resp Hresp]. discriminate.
Qed.

Lemma links_pass_through_witness :
  py_item_str
    (projection [PStr (u "A"); PStr (u "B"); PStr (u "C")] sample_rows)
    (u "links")
  = inr (PList (map PDict sample_rows)).
Proof.
  exact (proj1 (links_pass_through scripted_world scripted_run (fun s => s)
                  (fun s => Permutation_refl s) sample_rows)
           300%Z {| world := connected_world (inr sample_rows); log := [] |}
           _ _ _ eq_refl eq_refl).
Defined.

Lemma get_full_graph_binds_limit_verbatim_witness :
  api_graph scripted_world scripted_run (fun s => s) (Some (-1)%Z)
    {| world := connected_world
                  (inl (ExternalError (u "ClientError") (u "invalid LIMIT")));
       log := [] |}
  = (ServerError (ExternalError (u "ClientError") (u "invalid LIMIT")),
     {| world := connected_world
                   (inl (ExternalError (u "ClientError") (u "invalid LIMIT")));
        log := [EvRun FULL_GRAPH_QUERY [(u "limit", PInt (-1))]] |}).
Proof.
  exact (proj2 (proj1 (proj2 (get_full_graph_binds_limit_verbatim
                                scripted_world scripted_run (fun s => s) (-1)%Z
                                {| world := connected_world
                                     (inl (ExternalError (u "ClientError")
                                             (u "invalid LIMIT")));
                                   log := [] |}))
                  _ _ eq_refl)).
Defined.

Lemma api_search_rejects_missing_or_empty_witness :
  http_status
    (fst (api_search scripted_world scripted_run (fun s => s) (Some [])
            {| world := connected_world (inr sample_rows); log := [] |}))
  = 422%Z.
Proof.
  exact (proj1 (proj2 (api_search_rejects_missing_or_empty
                         scripted_world scripted_run (fun s => s) (Some [])
                         {| world := connected_world (inr sample_rows);
                            log := [] |}
                         (or_intror eq_refl)))).
Defined.


(** ** Further properties on concrete requests *)

Lemma generate_cypher_query_returns_iff_witness :
  fst (generate_cypher_query sample_url sample_key scripted_world scripted_post
         sample_question {| world := plain_world; log := [] |})
  = inr (u "Silver raises the activity.").
Proof.
  apply (proj2 (generate_cypher_query_returns_iff
                  sample_url sample_key scripted_world scripted_post
                  sample_question {| world := plain_world; log := [] |}
                  (u "Silver raises the activity."))).
  exists answer_reply, {| replies := []; store_reply := inr [] |},
    (u " Silver raises the activity. ").
  split; [reflexivity | split; [apply chat_reply_says | reflexivity]].
Defined.

Lemma generate_cypher_query_malformed_replies_witness :
  fst (generate_cypher_query sample_url sample_key scripted_world scripted_post
         sample_question
         {| world := {| replies := [inr error_reply]; store_reply := inr [] |};
            log := [] |})
  = inl (TypeError (NotSubscriptable TNoneType)).
Proof.
  apply (proj1 (proj2 (generate_cypher_query_malformed_replies
                         sample_url sample_key scripted_world scripted_post
                         sample_question
                         {| world := {| replies := [inr error_reply];
                                        store_reply := inr [] |};
                            log := [] |}
                         error_reply
                         {| replies := []; store_reply := inr [] |}
                         eq_refl))).
  eexists. split; reflexivity.
Defined.

Lemma generate_cypher_query_without_fences_witness :
  exists query,
    fst (generate_cypher_query sample_url sample_key scripted_world
           scripted_post sample_question
           {| world := plain_world; log := [] |})
    = inr query
    /\ query = u "Silver raises the activity.".
Proof.
  destruct (generate_cypher_query_without_fences
              sample_url sample_key scripted_world scripted_post
              sample_question {| world := plain_world; log := [] |}
              answer_reply {| replies := []; store_reply := inr [] |}
              (u " Silver raises the activity. ")
              eq_refl (chat_reply_says _))
    as (query & Hq & _ & Hplain).
  exists query. split; [exact Hq|].
  rewrite Hplain; [reflexivity|].
  intros a b H.
  assert (Hc : contains (u " Silver raises the activity. ") fence = true)
    by (apply contains_infix; now exists a, b).
  discriminate.
Defined.

Lemma get_answer_from_kg_is_trimmed_witness :
  strip (u "Silver raises the activity.") = u "Silver raises the activity.".
Proof.
  exact (proj1 (get_answer_from_kg_is_trimmed
                  sample_url sample_key scripted_world scripted_post
                  scripted_dumps [] sample_question _
                  {| world := plain_world; log := [] |} _ eq_refl)).
Defined.

Lemma ask_question_200_only_on_success_witness :
  exists answer,
    fst (ask_question sample_url sample_key scripted_world scripted_post
           scripted_run scripted_dumps scripted_exn_str sample_question
           {| world := connected_world (inr sample_rows); log := [] |})
    = inr {| resp_content := PDict [(u "answer", PStr answer)];
             status_code := 200 |}.
Proof.
  edestruct (ask_question_200_only_on_success
               sample_url sample_key scripted_world scripted_post
               scripted_run scripted_dumps scripted_exn_str sample_question
               {| world := connected_world (inr sample_rows); log := [] |})
    as (query & st1 & rows & st2 & answer & _ & _ & _ & Hc);
    [reflexivity | reflexivity |].
  exists answer. cbn [resp_content] in Hc. injection Hc as <-. reflexivity.
Defined.

Lemma ask_question_unserialisable_rows_witness :
  fst (ask_question sample_url sample_key scripted_world scripted_post
         scripted_run refusing_dumps scripted_exn_str sample_question
         {| world := connected_world (inr sample_rows); log := [] |})
  = inr {| resp_content :=
             PDict [(u "answer", PStr (u "Error: not JSON serializable"))];
           status_code := 500 |}.
Proof.
  epose proof (ask_question_unserialisable_rows
                 sample_url sample_key scripted_world scripted_post
                 scripted_run refusing_dumps scripted_exn_str sample_question
                 {| world := connected_world (inr sample_rows); log := [] |}
                 _ _ _ _ _ eq_refl eq_refl eq_refl) as (_ & Hok & _).
  rewrite (Hok eq_refl). reflexivity.
Defined.

Lemma ask_question_runs_generated_text_witness :
  exists evs,
    log scripted_world
      (snd (ask_question sample_url sample_key scripted_world scripted_post
              scripted_run scripted_dumps scripted_exn_str sample_question
              {| world := connected_world (inr sample_rows); log := [] |}))
    = EvPost sample_url (api_headers sample_key)
        (generation_request sample_question)
      :: EvRun sample_query [] :: evs.
Proof.
  exact (ask_question_runs_generated_text
           sample_url sample_key scripted_world scripted_post
           scripted_run scripted_dumps scripted_exn_str sample_question
           {| world := connected_world (inr sample_rows); log := [] |}
           fenced_reply
           {| replies := [inr answer_reply]; store_reply := inr sample_rows |}
           (u " ```MATCH (n:Node)-[r]-(m:Node) RETURN n, r, m``` ")
           eq_refl (chat_reply_says _)).
Defined.

Lemma build_projection_returns_iff_witness :
  ~ Forall hashable_endpoints [list_named_row]
  /\ Forall hashable_endpoints sample_rows.
Proof.
  split.
  - intros H.
    apply (proj2 (build_projection_returns_iff (fun s => s) [list_named_row]))
      in H as [resp H].
    discriminate.
  - apply (proj1 (build_projection_returns_iff (fun s => s) sample_rows)).
    eexists. reflexivity.
Defined.

Lemma build_projection_exceptions_witness :
  TypeError (Unhashable TList) = KeyError (PStr (u "source"))
  \/ TypeError (Unhashable TList) = KeyError (PStr (u "target"))
  \/ TypeError (Unhashable TList) = TypeError (Unhashable TList)
  \/ TypeError (Unhashable TList) = TypeError (Unhashable TDict).
Proof.
  exact (build_projection_exceptions (fun s => s) [list_named_row] _ eq_refl).
Defined.

Lemma build_projection_node_count_witness :
  exists names,
    projection [PStr (u "A"); PStr (u "B"); PStr (u "C")] sample_rows
    = projection names sample_rows
    /\ length names <= 2 * length sample_rows
    /\ (sample_rows = [] -> names = []).
Proof.
  exact (build_projection_node_count (fun s => s)
           (fun s => Permutation_refl s) sample_rows _ eq_refl).
Defined.

Lemma build_projection_repeated_link_witness :
  exists names,
    projection [PStr (u "A"); PStr (u "B"); PStr (u "C")] sample_rows
    = projection names sample_rows
    /\ build_projection (fun s => s)
         (sample_rows ++ [row (PStr (u "A")) (PStr (u "B")) (u "CATALYZES")])
       = inr (projection names
                (sample_rows
                   ++ [row (PStr (u "A")) (PStr (u "B")) (u "CATALYZES")])).
Proof.
  exact (build_projection_repeated_link (fun s => s) sample_rows
           (row (PStr (u "A")) (PStr (u "B")) (u "CATALYZES")) _
           eq_refl (or_introl eq_refl)).
Defined.

Lemma search_subgraph_binds_q_witness :
  fst (api_search scripted_world scripted_run (fun s => s) (Some (u "cat"))
         {| world := refusing_store; log := [] |})
  = ServerError (ExternalError (u "ServiceUnavailable") (u "store down")).
Proof.
  apply (proj2 (search_subgraph_binds_q scripted_world scripted_run
                  (fun s => s) (u "cat")
                  {| world := refusing_store; log := [] |})
           _ refusing_store eq_refl).
  discriminate.
Defined.

Lemma api_search_rejects_iff_witness :
  log scripted_world
    (snd (api_search scripted_world scripted_run (fun s => s) (Some (u "cat"))
            {| world := connected_world (inr sample_rows); log := [] |}))
  = [EvRun SEARCH_QUERY [(u "q", PStr (u "cat"))]].
Proof.
  apply (proj2 (api_search_rejects_iff scripted_world scripted_run
                  (fun s => s) (Some (u "cat"))
                  {| world := connected_world (inr sample_rows); log := [] |})
           (u "cat") eq_refl).
  discriminate.
Defined.

Lemma cypher_search_exact_below_cap_witness :
  In (row (PStr (u "Catalyst")) (PStr (u "B")) (u "CATALYZES"))
     (cypher_search ascii_lower sample_graph (u "cat")).
Proof.
  apply (proj2 (cypher_search_exact_below_cap ascii_lower sample_graph
                  (u "cat")
                  (row (PStr (u "Catalyst")) (PStr (u "B")) (u "CATALYZES"))
                  ltac:(cbn [length sample_graph]; lia))).
  exists {| n_name := Some (u "Catalyst"); m_name := Some (u "B");
            r_type := u "CATALYZES" |}.
  split; [now left | split; [reflexivity|]].
  left. exists (u "Catalyst"). split; [reflexivity|].
  exists [], (u "alyst"). reflexivity.
Defined.

Lemma build_projection_any_order_witness :
  exists names1 names2,
    projection [PStr (u "A"); PStr (u "B"); PStr (u "C")] sample_rows
    = projection names1 sample_rows
    /\ build_projection (@rev pyval) sample_rows
       = inr (projection names2 sample_rows)
    /\ Permutation names1 names2.
Proof.
  exact (build_projection_any_order (fun s => s) (@rev pyval)
           (fun s => Permutation_refl s)
           (fun s => Permutation_sym (Permutation_rev s))
           sample_rows _ eq_refl).
Defined.

Lemma get_answer_from_kg_returns_iff_witness :
  fst (get_answer_from_kg sample_url sample_key scripted_world scripted_post
         scripted_dumps [] sample_question
         {| world := {| replies := [inr (chat_reply (u "  "))];
                        store_reply := inr [] |};
            log := [] |})
  = inr [].
Proof.
  apply (proj2 (get_answer_from_kg_returns_iff
                  sample_url sample_key scripted_world scripted_post
                  scripted_dumps [] sample_question []
                  {| world := {| replies := [inr (chat_reply (u "  "))];
                                 store_reply := inr [] |};
                     log := [] |})).
  exists (u "[]"), (chat_reply (u "  ")),
    {| replies := []; store_reply := inr [] |}, (u "  ").
  split; [reflexivity | split; [reflexivity | split]];
    [apply chat_reply_says | reflexivity].
Defined.

(** ** Further runs *)

Example fence_codepoints : fence = [96; 96; 96]%N.
Proof. reflexivity. Qed.

Example utf8_decode_cjk : u "问题：" = [38382; 39064; 65306]%N.
Proof. reflexivity. Qed.

(** Stripping comes first: whitespace that stood inside the fences stays. *)
Example strip_before_replace :
  replace fence [] (strip (u " ``` MATCH (n) RETURN n ``` "))
  = u " MATCH (n) RETURN n ".
Proof. reflexivity. Qed.

(** The language tag of a fenced block is not a fence and is kept. *)
Example language_tag_is_kept :
  replace fence [] (strip (u "```cypher MATCH (n) RETURN n```"))
  = u "cypher MATCH (n) RETURN n".
Proof. reflexivity. Qed.

Example four_backticks_leave_one : replace fence [] (u "````") = u "`".
Proof. reflexivity. Qed.

(** A reply without [choices] makes the client raise, and the endpoint
    answer 500. *)
Example reply_without_choices :
  first_choice_content (PDict [(u "error", PStr (u "invalid key"))])
  = inl (TypeError (NotSubscriptable TNoneType))
  /\ fst (api_ask_question sample_url sample_key scripted_world scripted_post
            scripted_run scripted_dumps scripted_exn_str (Some sample_question)
            {| world := {| replies := [inr (PDict [(u "error", PStr (u "invalid key"))])];
                           store_reply := inr [] |};
               log := [] |})
     = Responded 500 (PDict [(u "answer", PStr (u "Error: error"))]).
Proof. split; reflexivity. Qed.

(** The scenario of the two edges: three nodes, both links verbatim. *)
Example full_graph_scenario :
  fst (api_graph scripted_world scripted_run (fun s => s) None
         {| world := connected_world (inr sample_rows); log := [] |})
  = Responded 200
      (projection [PStr (u "A"); PStr (u "B"); PStr (u "C")] sample_rows).
Proof. reflexivity. Qed.

(** [True] and [1] are one member of a set. *)
Example true_and_one_share_a_node :
  build_projection (fun s => s) [row (PBool true) (PInt 1) (u "IS")]
  = inr (projection [PBool true] [row (PBool true) (PInt 1) (u "IS")]).
Proof. reflexivity. Qed.

(** A row without a target makes the builder raise [KeyError]. *)
Example row_without_target :
  build_projection (fun s => s) [[(u "source", PStr (u "A"))]]
  = inl (KeyError (PStr (u "target"))).
Proof. reflexivity. Qed.

(** Only the link that touches "Catalyst" matches [q = "cat"]. *)
Example search_scenario :
  cypher_search ascii_lower sample_graph (u "cat")
  = [row (PStr (u "Catalyst")) (PStr (u "B")) (u "CATALYZES")].
Proof. reflexivity. Qed.

(** A name that holds a lone surrogate passes the builder and fails when
    the framework encodes the returned dictionary. *)
Example graph_with_surrogate_name :
  fst (api_graph scripted_world scripted_run (fun s => s) None
         {| world := connected_world
                       (inr [row (PStr [55296%N]) (PStr (u "B")) (u "IS")]);
            log := [] |})
  = ServerError
      (UnicodeEncodeError
         (projection [PStr [55296%N]; PStr (u "B")]
            [row (PStr [55296%N]) (PStr (u "B")) (u "IS")])).
Proof. reflexivity. Qed.
